(** * cuda::experimental::uninitialized_buffer

    A shallow embedding of
    [cudax/include/cuda/experimental/__container/uninitialized_buffer.h]
    and the properties of its allocation-size arithmetic, its aligned
    pointer resolver and its ownership transfer (construct, move, swap,
    destroy).

    - [size_t] and addresses are 64-bit unsigned integers, carried as [Z]
      with the wrap-around of every operation written out;
    - buffer objects live in an object store indexed by their address, so
      that [a = std::move(a)] and [a.swap(a)] alias as they do in C++;
    - the memory resource is an interface; every call the buffer issues to
      it is appended to a call log. *)

From Stdlib Require Import ZArith Lia List.
From stdpp Require Import base option gmap fin_maps.
Import ListNotations.

Local Open Scope Z_scope.

(** ** Machine integers *)

Module SizeT.

Definition bits : Z := 64.
Definition modulus : Z := 2 ^ bits.

Definition wrap (z : Z) : Z := z mod modulus.

Definition in_range (z : Z) : Prop := 0 <= z < modulus.

Definition add (a b : Z) : Z := wrap (a + b).
Definition sub (a b : Z) : Z := wrap (a - b).
Definition mul (a b : Z) : Z := wrap (a * b).
(** [~a] on an unsigned 64-bit word *)
Definition not (a : Z) : Z := wrap (Z.lnot a).
(** [a & b] *)
Definition and (a b : Z) : Z := Z.land a b.

End SizeT.

(** ** The element type [_Tp]

    The template only looks at [sizeof(_Tp)] and [alignof(_Tp)]. *)

Record elem_type : Type := ElemType {
  sizeOf : Z;
  alignOf : Z
}.

(** What C++ guarantees of every object type: the alignment is a power of
    two, the size is positive and a multiple of the alignment (array
    elements are laid out back to back, each one aligned). *)
Definition is_pow2 (a : Z) : Prop := 0 < a /\ a = 2 ^ Z.log2 a.

Record wf_elem_type (T : elem_type) : Prop := WfElemType {
  wf_align_pow2 : is_pow2 (alignOf T);
  wf_align_range : alignOf T < SizeT.modulus;
  wf_size_pos : 0 < sizeOf T;
  wf_size_range : sizeOf T < SizeT.modulus;
  wf_size_aligned : sizeOf T mod alignOf T = 0
}.

(** ** Allocation size calculator *)

(** [static constexpr size_t __get_allocation_size(const size_t __count)]:
    [(__count * sizeof(_Tp) + (__alignment - 1)) & ~(__alignment - 1)]. *)
Definition __get_allocation_size (T : elem_type) (__count : Z) : Z :=
  let __alignment := alignOf T in
  SizeT.and
    (SizeT.add (SizeT.mul __count (sizeOf T)) (SizeT.sub __alignment 1))
    (SizeT.not (SizeT.sub __alignment 1)).

(** ** Pointers and the aligned pointer resolver *)

Definition ptr : Type := Z.
Definition nullptr : ptr := 0.

(** Modelled from the spec: [_CUDA_VSTD::align] of
    [cuda/std/__memory/align.h], which [__get_data] calls and which is
    defined outside of this header. The spec describes it as the
    align-forward primitive [(pointer, availableBytes, requiredAlignment,
    requiredBytes) -> adjustedPointer | failure]: it looks in
    [[__ptr, __ptr + __space)] for the first address that is a multiple of
    [__alignment] and checks that [__size] bytes remain from there. The
    caller passes [__ptr] and [__space] by reference: on success they are
    moved to the aligned address and shrunk by the bytes skipped, on
    failure they are left alone and the null pointer is returned. The
    result is the returned pointer with the updated [__ptr] and
    [__space]. *)
Definition align (__alignment __size : Z) (__ptr : ptr) (__space : Z)
  : ptr * ptr * Z :=
  let __aligned := __ptr + (- __ptr) mod __alignment in
  let __diff := __aligned - __ptr in
  if (__size <=? __space) && (__diff <=? __space - __size)
  then (__aligned, __aligned, __space - __diff)
  else (nullptr, __ptr, __space).

(** ** The buffer object *)

(** A [resource_ref] is a non-owning handle: it names a resource. *)
Definition resource_ref : Type := nat.

Record uninitialized_buffer : Type := Buffer {
  __mr_ : resource_ref;
  __count_ : Z;
  __buf_ : ptr
}.

(** [_Tp* __get_data() const noexcept]; [launder] and [reinterpret_cast]
    keep the address. The by-reference updates of the locals [__ptr] and
    [__space] are dropped when the function returns. *)
Definition __get_data (T : elem_type) (b : uninitialized_buffer) : ptr :=
  let __alignment := alignOf T in
  let __space := __get_allocation_size T (__count_ b) in
  let __ptr := __buf_ b in
  let '(r, __ptr', __space') :=
    align __alignment (SizeT.mul (__count_ b) (sizeOf T)) __ptr __space in
  r.

(** The two lifecycle states. *)
Definition Empty (b : uninitialized_buffer) : Prop :=
  __count_ b = 0 /\ __buf_ b = nullptr.

Definition Holding (b : uninitialized_buffer) : Prop :=
  0 < __count_ b /\ __buf_ b <> nullptr.

(** The state invariant of the data model, on a [size_t] count. *)
Definition buffer_inv (b : uninitialized_buffer) : Prop :=
  SizeT.in_range (__count_ b) /\ (__count_ b = 0 <-> __buf_ b = nullptr).

(** An address is a candidate for the typed view of [b] when it lies in
    the reserved range, is aligned for [T] and leaves room for the
    elements. *)
Definition aligned_fit (T : elem_type) (b : uninitialized_buffer) (a : Z)
  : Prop :=
  __buf_ b <= a < __buf_ b + __get_allocation_size T (__count_ b)
  /\ a mod alignOf T = 0
  /\ a + __count_ b * sizeOf T
     <= __buf_ b + __get_allocation_size T (__count_ b).

(** ** The memory resource and its call log *)

(** The interface the buffer consumes: [allocate(bytes)] (with the
    resource's default alignment) returns a pointer or throws, here
    [None]; [deallocate(pointer, bytes)] returns nothing. [H] is the state
    of the resources. *)
Class MemoryResource (H : Type) : Type := {
  mr_allocate : resource_ref -> Z -> H -> option ptr * H;
  mr_deallocate : resource_ref -> ptr -> Z -> H -> H
}.

Inductive event : Type :=
  | Allocate (mr : resource_ref) (bytes : Z)
  | Deallocate (mr : resource_ref) (p : ptr) (bytes : Z).

Definition is_allocate (e : event) : bool :=
  match e with Allocate _ _ => true | Deallocate _ _ _ => false end.

Definition is_deallocate (e : event) : bool :=
  match e with Allocate _ _ => false | Deallocate _ _ _ => true end.

Definition count_allocate (l : list event) : nat :=
  length (List.filter is_allocate l).

Definition count_deallocate (l : list event) : nat :=
  length (List.filter is_deallocate l).

(** A successful [allocate] never hands out the null pointer. *)
Definition allocate_nonnull {H : Type} `{MemoryResource H} : Prop :=
  forall mr bytes h p h', mr_allocate mr bytes h = (Some p, h') -> p <> nullptr.

(** The address of a buffer object. *)
Definition obj : Type := nat.

Record world (H : Type) : Type := World {
  objects : gmap obj uninitialized_buffer;
  heap : H;
  calls : list event
}.
Arguments World {H} _ _ _.
Arguments objects {H} _.
Arguments heap {H} _.
Arguments calls {H} _.

(** How a member function ends: it returns, an exception leaves it, or it
    was called on something that is not a live object. *)
Inductive outcome (H A : Type) : Type :=
  | Returns (a : A) (w : world H)
  | Throws (w : world H)
  | Undefined.
Arguments Returns {H A} _ _.
Arguments Throws {H A} _.
Arguments Undefined {H A}.

Definition M (H A : Type) : Type := world H -> outcome H A.

Definition ret {H A : Type} (a : A) : M H A := fun w => Returns a w.

Definition bind {H A B : Type} (c : M H A) (k : A -> M H B) : M H B :=
  fun w =>
    match c w with
    | Returns a w' => k a w'
    | Throws w' => Throws w'
    | Undefined => Undefined
    end.

Notation "'let*' x ':=' c 'in' k" := (bind c (fun x => k))
  (at level 10, x name, c at level 100, k at level 200).
Notation "c1 ';;' c2" := (bind c1 (fun _ => c2))
  (at level 100, c2 at level 200, right associativity).

Section Buffer.

Context {H : Type} `{MemoryResource H}.
Variable T : elem_type.

(** *** Object store *)

Definition load (this : obj) : M H uninitialized_buffer :=
  fun w =>
    match objects w !! this with
    | Some b => Returns b w
    | None => Undefined
    end.

Definition store (this : obj) (b : uninitialized_buffer) : M H unit :=
  fun w =>
    match objects w !! this with
    | Some _ => Returns tt (World (<[this := b]> (objects w)) (heap w) (calls w))
    | None => Undefined
    end.

Definition get_mr (this : obj) : M H resource_ref :=
  let* b := load this in ret (__mr_ b).
Definition get_count (this : obj) : M H Z :=
  let* b := load this in ret (__count_ b).
Definition get_buf (this : obj) : M H ptr :=
  let* b := load this in ret (__buf_ b).

Definition set_mr (this : obj) (v : resource_ref) : M H unit :=
  let* b := load this in store this (Buffer v (__count_ b) (__buf_ b)).
Definition set_count (this : obj) (v : Z) : M H unit :=
  let* b := load this in store this (Buffer (__mr_ b) v (__buf_ b)).
Definition set_buf (this : obj) (v : ptr) : M H unit :=
  let* b := load this in store this (Buffer (__mr_ b) (__count_ b) v).

(** The object at [this] starts to exist once its members are
    initialised; the storage must not hold a live object. *)
Definition begin_lifetime (this : obj) (b : uninitialized_buffer)
  : M H unit :=
  fun w =>
    match objects w !! this with
    | Some _ => Undefined
    | None => Returns tt (World (<[this := b]> (objects w)) (heap w) (calls w))
    end.

Definition end_lifetime (this : obj) : M H unit :=
  fun w =>
    match objects w !! this with
    | Some _ => Returns tt (World (delete this (objects w)) (heap w) (calls w))
    | None => Undefined
    end.

(** *** Calls into the resource *)

Definition call_allocate (mr : resource_ref) (bytes : Z) : M H ptr :=
  fun w =>
    let log := calls w ++ [Allocate mr bytes] in
    match mr_allocate mr bytes (heap w) with
    | (Some p, h') => Returns p (World (objects w) h' log)
    | (None, h') => Throws (World (objects w) h' log)
    end.

Definition call_deallocate (mr : resource_ref) (p : ptr) (bytes : Z)
  : M H unit :=
  fun w =>
    Returns tt (World (objects w) (mr_deallocate mr p bytes (heap w))
                      (calls w ++ [Deallocate mr p bytes])).

(** *** Member functions *)

(** [uninitialized_buffer(resource_ref __mr, const size_t __count)]: the
    members are initialised in declaration order, [__buf_] last and from
    the two before it. *)
Definition ctor (this : obj) (__mr : resource_ref) (__count : Z)
  : M H unit :=
  let m := __mr in
  let c := __count in
  let* p := (if c =? 0 then ret nullptr
             else call_allocate m (__get_allocation_size T c)) in
  begin_lifetime this (Buffer m c p).

(** [uninitialized_buffer(uninitialized_buffer&& __other) noexcept] *)
Definition move_ctor (this __other : obj) : M H unit :=
  let* m := get_mr __other in
  let* c := get_count __other in
  let* p := get_buf __other in
  begin_lifetime this (Buffer m c p);;
  set_count __other 0;;
  set_buf __other nullptr.

(** [uninitialized_buffer& operator=(uninitialized_buffer&& __other)
    noexcept] *)
Definition move_assign (this __other : obj) : M H unit :=
  let* p := get_buf this in
  (if negb (p =? nullptr) then
     let* m := get_mr this in
     let* c := get_count this in
     call_deallocate m p (__get_allocation_size T c)
   else ret tt);;
  (let* m := get_mr __other in set_mr this m);;
  (let* c := get_count __other in set_count this c);;
  (let* q := get_buf __other in set_buf this q);;
  set_count __other 0;;
  set_buf __other nullptr.

(** [~uninitialized_buffer()] *)
Definition dtor (this : obj) : M H unit :=
  let* p := get_buf this in
  (if negb (p =? nullptr) then
     let* m := get_mr this in
     let* c := get_count this in
     call_deallocate m p (__get_allocation_size T c)
   else ret tt);;
  end_lifetime this.

(** [pointer begin() const noexcept] *)
Definition begin_ (this : obj) : M H ptr :=
  let* b := load this in ret (__get_data T b).

(** [pointer end() const noexcept]: [__get_data() + __count_] on a
    [_Tp*] *)
Definition end_ (this : obj) : M H ptr :=
  let* b := load this in
  ret (SizeT.add (__get_data T b) (SizeT.mul (__count_ b) (sizeOf T))).

(** [pointer data() const noexcept] *)
Definition data (this : obj) : M H ptr :=
  let* b := load this in ret (__get_data T b).

(** [constexpr size_type size() const noexcept] *)
Definition size (this : obj) : M H Z := get_count this.

(** [resource_ref resource() const noexcept] *)
Definition resource (this : obj) : M H resource_ref := get_mr this.

(** [_CUDA_VSTD::swap(a, b)] on one member: [tmp = a; a = b; b = tmp]. *)
Definition swap_member {A : Type} (get : obj -> M H A)
    (set : obj -> A -> M H unit) (x y : obj) : M H unit :=
  let* tmp := get x in
  (let* v := get y in set x v);;
  set y tmp.

(** [constexpr void swap(uninitialized_buffer& __other) noexcept] *)
Definition swap (this __other : obj) : M H unit :=
  swap_member get_mr set_mr this __other;;
  swap_member get_count set_count this __other;;
  swap_member get_buf set_buf this __other.

(** *** Programs over buffers *)

Inductive operation : Type :=
  | Construct (this : obj) (mr : resource_ref) (count : Z)
  | MoveConstruct (this other : obj)
  | MoveAssign (this other : obj)
  | Swap (this other : obj)
  | Destroy (this : obj).

Definition exec (o : operation) : M H unit :=
  match o with
  | Construct this mr count => ctor this mr count
  | MoveConstruct this other => move_ctor this other
  | MoveAssign this other => move_assign this other
  | Swap this other => swap this other
  | Destroy this => dtor this
  end.

(** The arguments are of their C++ types: a count is a [size_t]. *)
Definition well_typed (o : operation) : Prop :=
  match o with
  | Construct _ _ count => SizeT.in_range count
  | _ => True
  end.

(** One operation takes [w] to [w'], by returning or by throwing. *)
Definition step (w w' : world H) : Prop :=
  exists o, well_typed o /\
            (exec o w = Returns tt w' \/ exec o w = Throws w').

Definition initial (w : world H) : Prop := objects w = ∅.

Definition reachable (w : world H) : Prop :=
  exists w0, initial w0 /\ rtc step w0 w.

Definition world_inv (w : world H) : Prop :=
  forall this b, objects w !! this = Some b -> buffer_inv b.

End Buffer.

(** What releasing the allocation of [b] does to the resources and to the
    call log: the body of [if (__buf_) { __mr_.deallocate(...); }]. *)
Definition release_heap {H : Type} `{MemoryResource H} (T : elem_type)
    (b : uninitialized_buffer) (h : H) : H :=
  if __buf_ b =? nullptr then h
  else mr_deallocate (__mr_ b) (__buf_ b)
         (__get_allocation_size T (__count_ b)) h.

Definition release_calls (T : elem_type) (b : uninitialized_buffer)
  : list event :=
  if __buf_ b =? nullptr then []
  else [Deallocate (__mr_ b) (__buf_ b)
          (__get_allocation_size T (__count_ b))].

(** ** Scenarios *)

Section Scenarios.

Context {H : Type} `{MemoryResource H}.
Variable T : elem_type.

(** [{ uninitialized_buffer a(ra, ca); uninitialized_buffer b(rb, cb);
    b = std::move(a); }]: locals are destroyed in the reverse order of
    their construction. *)
Definition move_assign_scenario (a b : obj) (ra : resource_ref) (ca : Z)
    (rb : resource_ref) (cb : Z) : M H unit :=
  ctor T a ra ca;;
  ctor T b rb cb;;
  move_assign T b a;;
  dtor T b;;
  dtor T a.

(** A buffer that can be destroyed, assigned to and swapped, without a
    call to a resource. *)
Definition safe_to_reuse (this : obj) (w : world H) : Prop :=
  (exists w', dtor T this w = Returns tt w' /\ calls w' = calls w)
  /\ (forall src s, objects w !! src = Some s ->
        exists w', move_assign T this src w = Returns tt w'
                   /\ calls w' = calls w)
  /\ (forall other o, objects w !! other = Some o ->
        exists w', swap this other w = Returns tt w'
                   /\ calls w' = calls w).

End Scenarios.

(** ** A resource to run the scenarios with

    A bump allocator that hands out 256-byte aligned blocks below a fixed
    limit and throws beyond it; its state is the next free address. *)

Definition bump_limit : Z := 4096.

Definition bump_allocate (bytes : Z) (next : Z) : option ptr * Z :=
  if (0 <? next) && (next + bytes <=? bump_limit)
  then (Some next, 256 * ((next + bytes + 255) / 256))
  else (None, next).

Global Instance bump_resource : MemoryResource Z := {
  mr_allocate _ bytes next := bump_allocate bytes next;
  mr_deallocate _ _ _ next := next
}.

Definition bump_world : world Z := World ∅ 256 [].

Definition int32_t : elem_type := ElemType 4 4.

(** Ten [int32_t] in the first block of the 256-aligned resource. *)
Definition ten_ints : uninitialized_buffer := Buffer 0%nat 10 256.

(** Two live buffers of 3 and of 7 [int32_t], constructed in that order
    from the resource in its initial state. *)
Definition three_ints : uninitialized_buffer := Buffer 0%nat 3 256.
Definition seven_ints : uninitialized_buffer := Buffer 0%nat 7 512.

Definition two_buffers : world Z :=
  World (<[1%nat := seven_ints]> {[ 0%nat := three_ints ]}) 768
        [Allocate 0%nat 12; Allocate 0%nat 28].

(** One buffer of no elements, and one of ten [int32_t]. *)
Definition empty_buffer_world : world Z :=
  World {[ 0%nat := Buffer 0%nat 0 nullptr ]} 256 [].

Definition ten_ints_world : world Z :=
  World {[ 0%nat := ten_ints ]} 512 [Allocate 0%nat 40].

(** ** Ownership accounting *)

(** The test [if (__buf_)] of the destructor and of move assignment: the
    buffer has an allocation to release. *)
Definition owns (b : uninitialized_buffer) : bool :=
  negb (__buf_ b =? nullptr).

Definition weight (b : uninitialized_buffer) : nat :=
  if owns b then 1%nat else 0%nat.

(** The number of live buffers that have an allocation to release. *)
Definition holding_count (m : gmap obj uninitialized_buffer) : nat :=
  base.size
    (filter (fun kb : obj * uninitialized_buffer => owns kb.2 = true) m).

(** Allocations still held plus allocations given back. *)
Definition outstanding {H : Type} (w : world H) : nat :=
  (holding_count (objects w) + count_deallocate (calls w))%nat.

(** No allocation is held by two live buffers. *)
Definition unique_owner (m : gmap obj uninitialized_buffer) : Prop :=
  forall i j bi bj,
    i <> j -> m !! i = Some bi -> m !! j = Some bj ->
    __buf_ bi <> nullptr -> __buf_ bi <> __buf_ bj.

(** The member functions declared [noexcept], and the destructor. *)
Definition is_noexcept (o : operation) : bool :=
  match o with
  | Construct _ _ _ => false
  | _ => true
  end.


Section Programs.

Context {H : Type} `{MemoryResource H}.
Variable T : elem_type.

(** [{ uninitialized_buffer a(mr, count); }] *)
Definition construct_destroy (this : obj) (mr : resource_ref) (count : Z)
  : M H unit :=
  ctor T this mr count;;
  dtor T this.

(** Construct [a], move-construct [b] from it, end the lifetime of [a] and
    then that of [b]. *)
Definition move_construct_scenario (a b : obj) (mr : resource_ref)
    (count : Z) : M H unit :=
  ctor T a mr count;;
  move_ctor b a;;
  dtor T a;;
  dtor T b.

(** The generic exchange: [uninitialized_buffer tmp(std::move(a));
    a = std::move(b); b = std::move(tmp);], then [tmp] goes out of
    scope. *)
Definition swap_by_moves (tmp a b : obj) : M H unit :=
  move_ctor tmp a;;
  move_assign T a b;;
  move_assign T b tmp;;
  dtor T tmp.

(** [uninitialized_buffer tmp(std::move(a)); a = std::move(tmp);] *)
Definition move_out_and_back (tmp a : obj) : M H unit :=
  move_ctor tmp a;;
  move_assign T a tmp.

End Programs.

(** ** Machine arithmetic lemmas *)

Lemma modulus_pos : 0 < SizeT.modulus.
Proof. reflexivity. Qed.

Lemma wrap_small z : SizeT.in_range z -> SizeT.wrap z = z.
Proof. intros H. apply Z.mod_small. exact H. Qed.

Lemma wrap_range z : SizeT.in_range (SizeT.wrap z).
Proof. apply Z.mod_pos_bound. exact modulus_pos. Qed.

Lemma pow2_log2_range a :
  is_pow2 a -> a < SizeT.modulus -> 0 <= Z.log2 a < SizeT.bits.
Proof.
  intros [Hpos Heq] Hlt. split.
  - apply Z.log2_nonneg.
  - apply Z.log2_lt_pow2; assumption.
Qed.

(** [~(2^k - 1)] on a 64-bit word clears the [k] low bits of the other
    operand of [&]. *)
Lemma and_not_mask y k :
  SizeT.in_range y -> 0 <= k ->
  SizeT.and y (SizeT.not (2 ^ k - 1)) = 2 ^ k * (y / 2 ^ k).
Proof.
  intros Hy Hk. unfold SizeT.and, SizeT.not, SizeT.wrap, SizeT.modulus.
  rewrite <- Z.land_ones by (unfold SizeT.bits; lia).
  rewrite (Z.land_comm (Z.lnot _)), Z.land_assoc.
  rewrite (Z.land_ones y) by (unfold SizeT.bits; lia).
  rewrite (Z.mod_small y) by exact Hy.
  replace (2 ^ k - 1) with (Z.ones k) by (rewrite Z.ones_equiv; lia).
  rewrite <- Z.ldiff_land.
  rewrite Z.ldiff_ones_r by exact Hk.
  rewrite Z.shiftl_mul_pow2, Z.shiftr_div_pow2 by exact Hk.
  apply Z.mul_comm.
Qed.

(** ** Running the member functions *)

Ltac unfold_ops :=
  unfold exec, ctor, move_ctor, move_assign, dtor, swap, swap_member, data,
    begin_, end_, size, resource, get_mr, get_count, get_buf, set_mr,
    set_count, set_buf.

Ltac run_prims :=
  unfold bind, ret, load, store, begin_lifetime, end_lifetime,
    call_allocate, call_deallocate;
  repeat first
    [ progress cbn [objects heap calls __mr_ __count_ __buf_ negb]
    | rewrite lookup_insert_eq
    | rewrite lookup_insert_ne by congruence
    | rewrite lookup_delete_eq
    | rewrite lookup_delete_ne by congruence
    | match goal with
      | Hl : objects ?w !! ?k = _ |- context [objects ?w !! ?k] => rewrite Hl
      | Hl : (?x =? ?y) = _ |- context [?x =? ?y] => rewrite Hl
      | Hl : ?a = _ |- context [match ?a with pair _ _ => _ end] => rewrite Hl
      end ].

Ltac same_map :=
  apply map_eq; intros ?;
  repeat (rewrite lookup_insert; case_decide);
  subst; try congruence; try reflexivity.

Ltac same_world :=
  f_equal; f_equal; rewrite ?app_nil_r; try reflexivity; try same_map.

Section Running.

Context {H : Type} `{MemoryResource H}.
Variable T : elem_type.
Implicit Types (w : world H) (b o : uninitialized_buffer).

Lemma ctor_zero this mr w :
  objects w !! this = None ->
  ctor T this mr 0 w
  = Returns tt (World (<[this := Buffer mr 0 nullptr]> (objects w))
                      (heap w) (calls w)).
Proof.
  intros Hf. unfold_ops. change (0 =? 0) with true.
  run_prims. reflexivity.
Qed.

Lemma ctor_allocated this mr count w p h' :
  count <> 0 -> objects w !! this = None ->
  mr_allocate mr (__get_allocation_size T count) (heap w) = (Some p, h') ->
  ctor T this mr count w
  = Returns tt (World (<[this := Buffer mr count p]> (objects w)) h'
                (calls w ++ [Allocate mr (__get_allocation_size T count)])).
Proof.
  intros Hc Hf Ha. apply Z.eqb_neq in Hc.
  unfold_ops. run_prims. reflexivity.
Qed.

Lemma ctor_failed this mr count w h' :
  count <> 0 ->
  mr_allocate mr (__get_allocation_size T count) (heap w) = (None, h') ->
  ctor T this mr count w
  = Throws (World (objects w) h'
              (calls w ++ [Allocate mr (__get_allocation_size T count)])).
Proof.
  intros Hc Ha. apply Z.eqb_neq in Hc.
  unfold_ops. run_prims. reflexivity.
Qed.

Lemma move_ctor_eq this other o w :
  objects w !! this = None -> objects w !! other = Some o ->
  move_ctor this other w
  = Returns tt
      (World (<[other := Buffer (__mr_ o) 0 nullptr]>
                (<[this := o]> (objects w)))
             (heap w) (calls w)).
Proof.
  intros Hf Ho.
  assert (this <> other) as Hne by congruence.
  unfold_ops. run_prims. destruct o; same_world.
Qed.

Lemma move_assign_eq this other b o w :
  objects w !! this = Some b -> objects w !! other = Some o ->
  move_assign T this other w
  = Returns tt
      (World (<[other := Buffer (__mr_ o) 0 nullptr]>
                (<[this := o]> (objects w)))
             (release_heap T b (heap w)) (calls w ++ release_calls T b)).
Proof.
  intros Hb Ho. unfold release_heap, release_calls.
  destruct (decide (this = other)) as [->|Hne].
  - rewrite Hb in Ho. injection Ho as <-.
    unfold_ops.
    destruct (__buf_ b =? nullptr) eqn:E; run_prims; destruct b; same_world.
  - unfold_ops.
    destruct (__buf_ b =? nullptr) eqn:E; run_prims; destruct o; same_world.
Qed.

Lemma dtor_eq this b w :
  objects w !! this = Some b ->
  dtor T this w
  = Returns tt (World (delete this (objects w))
                      (release_heap T b (heap w))
                      (calls w ++ release_calls T b)).
Proof.
  intros Hb. unfold release_heap, release_calls. unfold_ops.
  destruct (__buf_ b =? nullptr) eqn:E; run_prims; same_world.
Qed.

Lemma swap_eq this other b o w :
  objects w !! this = Some b -> objects w !! other = Some o ->
  swap this other w
  = Returns tt (World (<[other := b]> (<[this := o]> (objects w)))
                      (heap w) (calls w)).
Proof.
  intros Hb Ho.
  destruct (decide (this = other)) as [->|Hne].
  - rewrite Hb in Ho. injection Ho as <-.
    unfold_ops. run_prims. destruct b; same_world.
  - unfold_ops. run_prims. destruct b, o; same_world.
Qed.

End Running.

(** ** Allocation size calculator *)

Lemma allocation_size_range T count :
  SizeT.in_range (__get_allocation_size T count).
Proof.
  unfold __get_allocation_size, SizeT.and, SizeT.add.
  set (x := SizeT.mul count (sizeOf T) + SizeT.sub (alignOf T) 1).
  set (m := SizeT.not (SizeT.sub (alignOf T) 1)).
  unfold SizeT.wrap, SizeT.modulus.
  rewrite <- Z.land_ones by (unfold SizeT.bits; lia).
  rewrite <- Z.land_assoc, (Z.land_comm (Z.ones _)), Z.land_assoc.
  rewrite Z.land_ones by (unfold SizeT.bits; lia).
  apply Z.mod_pos_bound. reflexivity.
Qed.

(** Without overflow in the sum, the mask arithmetic is rounding up to the
    next multiple of the alignment. *)
Lemma allocation_size_round_up T count :
  is_pow2 (alignOf T) -> alignOf T < SizeT.modulus ->
  0 <= count * sizeOf T ->
  count * sizeOf T + (alignOf T - 1) < SizeT.modulus ->
  __get_allocation_size T count
  = alignOf T * ((count * sizeOf T + (alignOf T - 1)) / alignOf T).
Proof.
  intros Hp Hr Hlo Hhi.
  pose proof (pow2_log2_range _ Hp Hr) as Hk.
  destruct Hp as [Hpos Hpow].
  unfold __get_allocation_size, SizeT.add, SizeT.mul, SizeT.sub.
  rewrite (wrap_small (alignOf T - 1)) by (unfold SizeT.in_range; lia).
  rewrite (wrap_small (count * sizeOf T)) by (unfold SizeT.in_range; lia).
  rewrite (wrap_small (count * sizeOf T + _)) by (unfold SizeT.in_range; lia).
  rewrite Hpow at 2.
  rewrite and_not_mask by (unfold SizeT.in_range; lia).
  rewrite <- Hpow. reflexivity.
Qed.

(** C1: for a count [>= 0] and an element type (its alignment a power of
    two and its size a multiple of it, as C++ has them) whose
    [count * sizeof] does not overflow, the allocation size is a multiple
    of the alignment, is at least [count * sizeof], exceeds it by less
    than the alignment, and is the value of [(count * sizeof + align - 1)
    & ~(align - 1)] computed on unbounded integers. *)
Theorem allocation_size_aligned_and_tight T count :
  wf_elem_type T -> 0 <= count -> count * sizeOf T < SizeT.modulus ->
  __get_allocation_size T count mod alignOf T = 0
  /\ count * sizeOf T <= __get_allocation_size T count
  /\ __get_allocation_size T count - count * sizeOf T < alignOf T
  /\ __get_allocation_size T count
     = Z.land (count * sizeOf T + (alignOf T - 1)) (Z.lnot (alignOf T - 1)).
Proof.
  intros [Hp Hr Hs Hsr Hdiv] Hc Hno.
  pose proof (pow2_log2_range _ Hp Hr) as Hk.
  pose proof Hp as [Hpos Hpow].
  assert (0 <= count * sizeOf T) as Hlo by nia.
  (* [count * sizeof] and the modulus are multiples of the alignment, so
     the sum stays below the modulus *)
  assert ((count * sizeOf T) mod alignOf T = 0) as Hm.
  { rewrite <- Z.mul_mod_idemp_r, Hdiv, Z.mul_0_r by lia.
    apply Z.mod_0_l. lia. }
  assert (SizeT.modulus mod alignOf T = 0) as Hmm.
  { rewrite Hpow. unfold SizeT.modulus.
    replace SizeT.bits with (SizeT.bits - Z.log2 (alignOf T) + Z.log2 (alignOf T))
      at 1 by lia.
    rewrite Z.pow_add_r by lia. apply Z.mod_mul. lia. }
  assert (count * sizeOf T + (alignOf T - 1) < SizeT.modulus) as Hhi.
  { apply Z.mod_divide in Hm, Hmm; try lia.
    destruct Hm as [q Hq], Hmm as [r Hr'].
    assert (q < r) as Hqr by nia.
    assert ((q + 1) * alignOf T <= r * alignOf T) as Hle
      by (apply Z.mul_le_mono_nonneg_r; lia).
    lia. }
  rewrite (allocation_size_round_up T count Hp Hr Hlo Hhi).
  set (x := count * sizeOf T) in *. set (a := alignOf T) in *.
  pose proof (Z.div_mod (x + (a - 1)) a ltac:(lia)) as Hdm.
  pose proof (Z.mod_pos_bound (x + (a - 1)) a Hpos) as Hb.
  repeat split.
  - rewrite Z.mul_comm. apply Z.mod_mul. lia.
  - lia.
  - lia.
  - replace (Z.lnot (a - 1)) with (Z.lnot (Z.ones (Z.log2 a)))
      by (rewrite Z.ones_equiv; f_equal; lia).
    rewrite <- Z.ldiff_land, Z.ldiff_ones_r by lia.
    rewrite Z.shiftl_mul_pow2, Z.shiftr_div_pow2 by lia.
    rewrite <- Hpow. apply Z.mul_comm.
Qed.

Lemma int32_t_wf : wf_elem_type int32_t.
Proof. split; try reflexivity. split; reflexivity. Qed.

Lemma allocation_size_aligned_and_tight_witness :
  __get_allocation_size int32_t 10 mod alignOf int32_t = 0
  /\ 10 * sizeOf int32_t <= __get_allocation_size int32_t 10
  /\ __get_allocation_size int32_t 10 - 10 * sizeOf int32_t < alignOf int32_t
  /\ __get_allocation_size int32_t 10
     = Z.land (10 * sizeOf int32_t + (alignOf int32_t - 1))
              (Z.lnot (alignOf int32_t - 1)).
Proof.
  apply (allocation_size_aligned_and_tight int32_t 10).
  - exact int32_t_wf.
  - lia.
  - reflexivity.
Defined.

Example alloc_size_int32_10 : __get_allocation_size int32_t 10 = 40.
Proof. reflexivity. Qed.

(** [wf_size_aligned] is what keeps the sum from wrapping. A size of 1
    with an alignment of 2, which no C++ object type has, would wrap it at
    the largest count. *)
Example alloc_size_needs_aligned_size :
  __get_allocation_size (ElemType 1 2) (SizeT.modulus - 1) = 0.
Proof. reflexivity. Qed.

(** ** Aligned pointer resolver *)

Lemma align_forward_aligned al p :
  0 < al -> (p + (- p) mod al) mod al = 0.
Proof.
  intros Hal. rewrite Z.add_mod_idemp_r by lia.
  rewrite Z.add_opp_diag_r. apply Z.mod_0_l. lia.
Qed.

Lemma align_forward_least al p a :
  0 < al -> p <= a -> a mod al = 0 -> p + (- p) mod al <= a.
Proof.
  intros Hal Hpa Ha.
  pose proof (align_forward_aligned al p Hal) as Hm.
  pose proof (Z.mod_pos_bound (- p) al Hal) as Hb.
  apply Z.mod_divide in Ha, Hm; try lia.
  destruct Ha as [q Hq], Hm as [r Hr].
  destruct (Z_lt_le_dec a (p + (- p) mod al)) as [Hlt|Hle]; [|exact Hle].
  assert (q < r) as Hqr by nia.
  assert ((q + 1) * al <= r * al) as Hle
    by (apply Z.mul_le_mono_nonneg_r; lia).
  lia.
Qed.

(** When the aligned element range fits, [align] returns its start. *)
Lemma align_fits al size p space :
  0 < al -> size <= space ->
  p + (- p) mod al + size <= p + space ->
  align al size p space
  = (p + (- p) mod al, p + (- p) mod al, space - (p + (- p) mod al - p)).
Proof.
  intros Hal Hs Hfit. unfold align.
  destruct (size <=? space) eqn:E1; [|lia].
  destruct (p + (- p) mod al - p <=? space - size) eqn:E2; [|lia].
  reflexivity.
Qed.

Section Resolver.

Context {H : Type} `{MemoryResource H}.
Variable T : elem_type.

(** C2: on a Holding buffer whose reserved range has an address aligned
    for [T] with room for [count] elements after it, [data()] and
    [begin()] return the first such address; it is a multiple of the
    alignment, and each call computes it from the fields of the object
    and leaves the object as it was (nothing is cached). *)
Theorem data_returns_first_aligned_fit (b : uninitialized_buffer) :
  0 < alignOf T -> 0 < sizeOf T -> Holding b ->
  (exists a, aligned_fit T b a) ->
  aligned_fit T b (__get_data T b)
  /\ (forall a, aligned_fit T b a -> __get_data T b <= a)
  /\ __get_data T b mod alignOf T = 0
  /\ (forall (w : world H) (this : obj),
        objects w !! this = Some b ->
        data T this w = Returns (__get_data T b) w
        /\ begin_ T this w = Returns (__get_data T b) w).
Proof.
  intros Hal Hsz [Hcount Hraw] [a0 Ha0].
  pose proof (allocation_size_range T (__count_ b)) as Hspace.
  set (space := __get_allocation_size T (__count_ b)) in *.
  set (first := __buf_ b + (- __buf_ b) mod alignOf T).
  assert (0 <= __count_ b * sizeOf T) as Hlo by nia.
  assert (SizeT.mul (__count_ b) (sizeOf T) = __count_ b * sizeOf T) as Hmul.
  { destruct Ha0 as [[Hl Hu] [_ Hroom]]. fold space in Hu, Hroom.
    apply wrap_small. unfold SizeT.in_range in *. lia. }
  assert (forall a, aligned_fit T b a -> first <= a) as Hleast.
  { intros a [[Hl _] [Hm _]]. apply align_forward_least; assumption. }
  assert (__get_data T b = first) as Hdata.
  { unfold __get_data. fold space. rewrite Hmul.
    pose proof (Hleast a0 Ha0) as Hle.
    destruct Ha0 as [[Hl Hu] [_ Hroom]]. fold space in Hu, Hroom.
    rewrite align_fits; [reflexivity | lia | lia | fold first; lia]. }
  rewrite Hdata.
  assert (first mod alignOf T = 0) as Hfm
    by (apply align_forward_aligned; exact Hal).
  split; [|split; [exact Hleast|split; [exact Hfm|]]].
  - pose proof (Hleast a0 Ha0) as Hle.
    pose proof (Z.mod_pos_bound (- __buf_ b) (alignOf T) Hal) as Hb.
    destruct Ha0 as [[Hl Hu] [_ Hroom]]. fold space in Hu, Hroom.
    unfold aligned_fit. fold space. fold first.
    repeat split; first [lia | exact Hfm].
  - intros w this Hw. unfold data, begin_, bind, load, ret.
    rewrite Hw, Hdata. split; reflexivity.
Qed.

End Resolver.

Lemma data_returns_first_aligned_fit_witness :
  aligned_fit int32_t ten_ints (__get_data int32_t ten_ints)
  /\ (forall a, aligned_fit int32_t ten_ints a ->
                __get_data int32_t ten_ints <= a)
  /\ __get_data int32_t ten_ints mod alignOf int32_t = 0
  /\ (forall (w : world Z) (this : obj),
        objects w !! this = Some ten_ints ->
        data int32_t this w = Returns (__get_data int32_t ten_ints) w
        /\ begin_ int32_t this w = Returns (__get_data int32_t ten_ints) w).
Proof.
  apply (data_returns_first_aligned_fit (H := Z) int32_t ten_ints).
  - reflexivity.
  - reflexivity.
  - split; [reflexivity | discriminate].
  - exists 256. unfold aligned_fit. vm_compute. intuition discriminate.
Defined.

(** The scenario of the spec: ten 4-byte elements from a resource aligned
    to 256 bytes; one [allocate(40)], and [data()] is 4-byte aligned. *)
Example scenario_ten_ints :
  ctor int32_t 0%nat 0%nat 10 bump_world
  = Returns tt (World {[ 0%nat := ten_ints ]} 512 [Allocate 0%nat 40])
  /\ __get_data int32_t ten_ints = 256
  /\ __get_data int32_t ten_ints mod 4 = 0.
Proof. split; [|split]; reflexivity. Qed.

(** The allocation size carries no slack for a type whose size is a
    multiple of its alignment: from a misaligned block the resolver has no
    aligned address with room, and returns the null pointer. *)
Example data_of_misaligned_block :
  __get_data int32_t (Buffer 0%nat 10 258) = nullptr.
Proof. reflexivity. Qed.

(** ** Construction *)

Lemma size_eq {H : Type} (this : obj) (b : uninitialized_buffer) (w : world H) :
  objects w !! this = Some b -> size this w = Returns (__count_ b) w.
Proof. intros Hb. unfold_ops. run_prims. reflexivity. Qed.

Lemma resource_eq {H : Type} (this : obj) (b : uninitialized_buffer)
    (w : world H) :
  objects w !! this = Some b -> resource this w = Returns (__mr_ b) w.
Proof. intros Hb. unfold_ops. run_prims. reflexivity. Qed.

Lemma count_allocate_app l1 l2 :
  count_allocate (l1 ++ l2) = (count_allocate l1 + count_allocate l2)%nat.
Proof.
  unfold count_allocate. rewrite List.filter_app, List.length_app. reflexivity.
Qed.

Lemma count_deallocate_app l1 l2 :
  count_deallocate (l1 ++ l2)
  = (count_deallocate l1 + count_deallocate l2)%nat.
Proof.
  unfold count_deallocate. rewrite List.filter_app, List.length_app.
  reflexivity.
Qed.

Section Construction.

Context {H : Type} `{MemoryResource H}.
Variable T : elem_type.
Implicit Types (w : world H) (b o : uninitialized_buffer).

(** C3: constructing with [count] calls [allocate] if and only if
    [count > 0]. With [count = 0] the call log is as before and
    [size()] is [0]; with [count > 0] the one new call is
    [allocate(size(count))], whether it succeeds or throws, and
    [size()] is [count] on the constructed buffer. *)
Theorem ctor_allocates_iff_count_positive this mr count w :
  SizeT.in_range count -> objects w !! this = None ->
  exists w',
    (ctor T this mr count w = Returns tt w'
     \/ ctor T this mr count w = Throws w')
    /\ (count = 0 ->
        ctor T this mr count w = Returns tt w'
        /\ calls w' = calls w
        /\ size this w' = Returns 0 w')
    /\ (0 < count ->
        calls w' = calls w ++ [Allocate mr (__get_allocation_size T count)]
        /\ (ctor T this mr count w = Returns tt w' ->
            size this w' = Returns count w'))
    /\ (count_allocate (calls w') = S (count_allocate (calls w))
        <-> 0 < count)
    /\ count_deallocate (calls w') = count_deallocate (calls w).
Proof.
  intros [Hlo Hhi] Hfree.
  destruct (decide (count = 0)) as [->|Hne].
  - eexists. rewrite (ctor_zero T this mr w Hfree).
    split; [left; reflexivity|]. cbn [calls].
    split; [|split; [|split]].
    + intros _. split; [reflexivity|]. split; [reflexivity|].
      erewrite size_eq by (cbn [objects]; apply lookup_insert_eq).
      reflexivity.
    + intros Hpos. lia.
    + split; [intros Heq; lia | intros Hpos; lia].
    + reflexivity.
  - assert (forall l e, is_allocate e = true ->
              count_allocate (l ++ [e]) = S (count_allocate l)) as Hca.
    { intros l e He. rewrite count_allocate_app.
      unfold count_allocate at 2. cbn. rewrite He. cbn. lia. }
    assert (forall l e, is_allocate e = true ->
              count_deallocate (l ++ [e]) = count_deallocate l) as Hcd.
    { intros l e He. rewrite count_deallocate_app.
      destruct e; [cbn; lia | discriminate]. }
    destruct (mr_allocate mr (__get_allocation_size T count) (heap w))
      as [[p|] h'] eqn:Ha.
    + eexists. rewrite (ctor_allocated T this mr count w p h' Hne Hfree Ha).
      split; [left; reflexivity|]. cbn [calls].
      split; [intros ->; congruence|].
      split; [|split].
      * intros _. split; [reflexivity|]. intros _.
        erewrite size_eq by (cbn [objects]; apply lookup_insert_eq).
        reflexivity.
      * rewrite Hca by reflexivity. split; [lia | reflexivity].
      * apply Hcd. reflexivity.
    + eexists. rewrite (ctor_failed T this mr count w h' Hne Ha).
      split; [right; reflexivity|]. cbn [calls].
      split; [intros ->; congruence|].
      split; [|split].
      * intros _. split; [reflexivity|]. intros Heq. discriminate.
      * rewrite Hca by reflexivity. split; [lia | reflexivity].
      * apply Hcd. reflexivity.
Qed.

(** C8: when [allocate] throws, the constructor throws; no object is
    added to the store, there is no buffer at [this] whose destructor
    could run, and the failed attempt has logged its [allocate] call
    and no [deallocate]. Construction into free storage either returns
    with the complete object in place or throws with the store as it
    was. *)
Theorem ctor_failure_commits_nothing this mr count w h' :
  SizeT.in_range count -> count <> 0 -> objects w !! this = None ->
  mr_allocate mr (__get_allocation_size T count) (heap w) = (None, h') ->
  exists w',
    ctor T this mr count w = Throws w'
    /\ objects w' = objects w
    /\ objects w' !! this = None
    /\ calls w' = calls w ++ [Allocate mr (__get_allocation_size T count)]
    /\ count_deallocate (calls w') = count_deallocate (calls w)
    /\ dtor T this w' = Undefined
    /\ (forall mr2 count2 w2,
          objects w2 !! this = None ->
          (exists p w2',
             ctor T this mr2 count2 w2 = Returns tt w2'
             /\ objects w2' = <[this := Buffer mr2 count2 p]> (objects w2))
          \/ (exists w2',
                ctor T this mr2 count2 w2 = Throws w2'
                /\ objects w2' = objects w2)).
Proof.
  intros Hr Hne Hfree Ha.
  exists (World (objects w) h'
            (calls w ++ [Allocate mr (__get_allocation_size T count)])).
  rewrite (ctor_failed T this mr count w h' Hne Ha). cbn [objects calls].
  split; [reflexivity|]. split; [reflexivity|]. split; [exact Hfree|].
  split; [reflexivity|]. split; [|split].
  - rewrite count_deallocate_app. cbn. lia.
  - unfold_ops. run_prims. reflexivity.
  - intros mr2 count2 w2 Hfree2.
    destruct (decide (count2 = 0)) as [->|Hne2].
    + left. eexists nullptr, _. rewrite (ctor_zero T this mr2 w2 Hfree2).
      split; reflexivity.
    + destruct (mr_allocate mr2 (__get_allocation_size T count2) (heap w2))
        as [[p|] h2] eqn:Ha2.
      * left. eexists p, _.
        rewrite (ctor_allocated T this mr2 count2 w2 p h2 Hne2 Hfree2 Ha2).
        split; reflexivity.
      * right. eexists.
        rewrite (ctor_failed T this mr2 count2 w2 h2 Hne2 Ha2).
        split; reflexivity.
Qed.

End Construction.

(** ** The state invariant *)

Lemma buffer_inv_states (b : uninitialized_buffer) :
  buffer_inv b -> Empty b \/ Holding b.
Proof.
  intros [[Hlo Hhi] Hiff]. unfold Empty, Holding.
  destruct (decide (__count_ b = 0)) as [Hz|Hnz].
  - left. split; [exact Hz | apply Hiff; exact Hz].
  - right. split; [lia | intros Hn; apply Hnz, Hiff; exact Hn].
Qed.

Lemma buffer_inv_moved_from (m : resource_ref) :
  buffer_inv (Buffer m 0 nullptr).
Proof.
  unfold buffer_inv, SizeT.in_range. cbn [__count_ __buf_].
  split; [split; [lia | reflexivity] | split; reflexivity].
Qed.

Section Invariant.

Context {H : Type} `{MemoryResource H}.
Variable T : elem_type.
Implicit Types (w : world H) (b o : uninitialized_buffer).

Lemma world_inv_insert this b w (h : H) c :
  world_inv w -> buffer_inv b ->
  world_inv (World (<[this := b]> (objects w)) h c).
Proof.
  intros Hw Hb k b'. cbn [objects]. rewrite lookup_insert.
  case_decide; [intros [= <-]; exact Hb | apply Hw].
Qed.

Lemma ctor_preserves_inv this mr count w w' :
  allocate_nonnull -> SizeT.in_range count -> world_inv w ->
  ctor T this mr count w = Returns tt w' \/ ctor T this mr count w = Throws w' ->
  world_inv w'.
Proof.
  intros Hnn Hr Hw. unfold_ops. unfold bind, ret, call_allocate, begin_lifetime.
  destruct (count =? 0) eqn:Ec.
  - apply Z.eqb_eq in Ec. subst count.
    destruct (objects w !! this) eqn:El; intros [Heq|Heq]; try discriminate.
    injection Heq as <-. apply world_inv_insert; [exact Hw|].
    apply buffer_inv_moved_from.
  - apply Z.eqb_neq in Ec.
    destruct (mr_allocate mr (__get_allocation_size T count) (heap w))
      as [[p|] h'] eqn:Ha; cbn [objects heap calls].
    + destruct (objects w !! this) eqn:El; intros [Heq|Heq]; try discriminate.
      injection Heq as <-.
      apply (world_inv_insert this _ w); [exact Hw|].
      split; [exact Hr|]. cbn [__count_ __buf_].
      split; [congruence | intros Hp; exfalso; exact (Hnn _ _ _ _ _ Ha Hp)].
    + intros [Heq|Heq]; try discriminate. injection Heq as <-. exact Hw.
Qed.

Lemma move_ctor_preserves_inv this other w w' :
  world_inv w ->
  move_ctor this other w = Returns tt w' \/ move_ctor this other w = Throws w' ->
  world_inv w'.
Proof.
  intros Hw.
  destruct (objects w !! other) as [o|] eqn:Ho.
  - destruct (objects w !! this) as [b|] eqn:Hb.
    + unfold_ops. run_prims. intros [Heq|Heq]; discriminate.
    + rewrite (move_ctor_eq this other o w Hb Ho).
      intros [Heq|Heq]; try discriminate. injection Heq as <-.
      apply (world_inv_insert other _ (World _ (heap w) (calls w)));
        [|apply buffer_inv_moved_from].
      apply world_inv_insert; [exact Hw | exact (Hw _ _ Ho)].
  - unfold_ops. run_prims. intros [Heq|Heq]; discriminate.
Qed.

Lemma move_assign_preserves_inv this other w w' :
  world_inv w ->
  move_assign T this other w = Returns tt w'
  \/ move_assign T this other w = Throws w' ->
  world_inv w'.
Proof.
  intros Hw.
  destruct (objects w !! this) as [b|] eqn:Hb.
  - destruct (objects w !! other) as [o|] eqn:Ho.
    + rewrite (move_assign_eq T this other b o w Hb Ho).
      intros [Heq|Heq]; try discriminate. injection Heq as <-.
      apply (world_inv_insert other _ (World _ (heap w) (calls w)));
        [|apply buffer_inv_moved_from].
      apply world_inv_insert; [exact Hw | exact (Hw _ _ Ho)].
    + assert (this <> other) as Hne by congruence.
      unfold_ops.
      destruct (__buf_ b =? nullptr) eqn:E; run_prims;
        intros [Heq|Heq]; discriminate.
  - unfold_ops. run_prims. intros [Heq|Heq]; discriminate.
Qed.

Lemma swap_preserves_inv this other w w' :
  world_inv w ->
  swap this other w = Returns tt w' \/ swap this other w = Throws w' ->
  world_inv w'.
Proof.
  intros Hw.
  destruct (objects w !! this) as [b|] eqn:Hb.
  - destruct (objects w !! other) as [o|] eqn:Ho.
    + rewrite (swap_eq this other b o w Hb Ho).
      intros [Heq|Heq]; try discriminate. injection Heq as <-.
      apply (world_inv_insert other _ (World _ (heap w) (calls w)));
        [|exact (Hw _ _ Hb)].
      apply world_inv_insert; [exact Hw | exact (Hw _ _ Ho)].
    + assert (this <> other) as Hne by congruence.
      unfold_ops. run_prims. intros [Heq|Heq]; discriminate.
  - unfold_ops. run_prims. intros [Heq|Heq]; discriminate.
Qed.

Lemma dtor_preserves_inv this w w' :
  world_inv w ->
  dtor T this w = Returns tt w' \/ dtor T this w = Throws w' ->
  world_inv w'.
Proof.
  intros Hw.
  destruct (objects w !! this) as [b|] eqn:Hb.
  - rewrite (dtor_eq T this b w Hb).
    intros [Heq|Heq]; try discriminate. injection Heq as <-.
    intros k b'. cbn [objects]. rewrite lookup_delete.
    case_decide; [discriminate | apply Hw].
  - unfold_ops. run_prims. intros [Heq|Heq]; discriminate.
Qed.

Lemma exec_preserves_inv (o : operation) w w' :
  allocate_nonnull -> well_typed o -> world_inv w ->
  exec T o w = Returns tt w' \/ exec T o w = Throws w' ->
  world_inv w'.
Proof.
  intros Hnn Hwt Hw. destruct o; cbn [exec].
  - apply ctor_preserves_inv; assumption.
  - apply move_ctor_preserves_inv; assumption.
  - apply move_assign_preserves_inv; assumption.
  - apply swap_preserves_inv; assumption.
  - apply dtor_preserves_inv; assumption.
Qed.

Lemma initial_inv w : initial w -> world_inv w.
Proof. intros Hi k b. rewrite Hi, lookup_empty. discriminate. Qed.

(** C4: when a successful [allocate] never returns the null pointer,
    construction, move construction, move assignment, swap and
    destruction each take a store in which [count == 0 <-> raw == null]
    holds of every buffer to one in which it still does; so every
    buffer of a world reached from the empty one is Empty or
    Holding. *)
Theorem lifecycle_preserves_state_invariant :
  allocate_nonnull ->
  (forall (o : operation) w w',
     well_typed o -> world_inv w ->
     exec T o w = Returns tt w' \/ exec T o w = Throws w' ->
     world_inv w')
  /\ (forall w this b,
        reachable T w -> objects w !! this = Some b ->
        Empty b \/ Holding b).
Proof.
  intros Hnn. split.
  - intros o w w' Hwt Hw Hex. exact (exec_preserves_inv o w w' Hnn Hwt Hw Hex).
  - intros w this b [w0 [Hi Hrtc]] Hb.
    apply buffer_inv_states.
    assert (world_inv w) as Hw.
    { apply initial_inv in Hi. revert Hi.
      induction Hrtc as [|x y z [o [Hwt Hex]] _ IH]; intros Hx.
      - exact Hx.
      - apply IH; [exact Hb|].
        exact (exec_preserves_inv o x y Hnn Hwt Hx Hex). }
    exact (Hw this b Hb).
Qed.

End Invariant.

Lemma bump_allocate_nonnull : allocate_nonnull (H := Z).
Proof.
  intros mr bytes h p h'. cbn. unfold bump_allocate.
  destruct (0 <? h) eqn:E; cbn [andb]; [|discriminate].
  destruct (h + bytes <=? bump_limit); [|discriminate].
  intros [= <- _]. unfold nullptr. lia.
Qed.

Lemma lifecycle_preserves_state_invariant_witness :
  (forall o (w w' : world Z),
     well_typed o -> world_inv w ->
     exec int32_t o w = Returns tt w' \/ exec int32_t o w = Throws w' ->
     world_inv w')
  /\ (forall (w : world Z) this b,
        reachable int32_t w -> objects w !! this = Some b ->
        Empty b \/ Holding b).
Proof.
  apply (lifecycle_preserves_state_invariant int32_t).
  exact bump_allocate_nonnull.
Defined.

(** ** Ownership transfer *)

Lemma bind_returns {H A B : Type} (c : M H A) (k : A -> M H B) w a w' :
  c w = Returns a w' -> (bind c k) w = k a w'.
Proof. intros Hc. unfold bind. rewrite Hc. reflexivity. Qed.

Lemma release_calls_null T b :
  __buf_ b = nullptr -> release_calls T b = [].
Proof. intros Hn. unfold release_calls. rewrite Hn. reflexivity. Qed.

Lemma release_calls_nonnull T b :
  __buf_ b <> nullptr ->
  release_calls T b
  = [Deallocate (__mr_ b) (__buf_ b) (__get_allocation_size T (__count_ b))].
Proof.
  intros Hn. unfold release_calls.
  destruct (__buf_ b =? nullptr) eqn:E; [|reflexivity].
  apply Z.eqb_eq in E. contradiction.
Qed.

Lemma release_heap_null {H : Type} `{MemoryResource H} T b (h : H) :
  __buf_ b = nullptr -> release_heap T b h = h.
Proof. intros Hn. unfold release_heap. rewrite Hn. reflexivity. Qed.

Section Transfer.

Context {H : Type} `{MemoryResource H}.
Variable T : elem_type.
Implicit Types (w : world H) (b o x y : uninitialized_buffer).

(** Destroying a buffer whose [raw] is null calls no resource. *)
Lemma dtor_of_null this b w :
  objects w !! this = Some b -> __buf_ b = nullptr ->
  dtor T this w = Returns tt (World (delete this (objects w)) (heap w) (calls w)).
Proof.
  intros Hb Hn. rewrite (dtor_eq T this b w Hb).
  rewrite release_heap_null, release_calls_null, app_nil_r by exact Hn.
  reflexivity.
Qed.

Lemma null_safe_to_reuse this b w :
  objects w !! this = Some b -> __buf_ b = nullptr ->
  safe_to_reuse T this w.
Proof.
  intros Hb Hn. split; [|split].
  - eexists. rewrite (dtor_of_null this b w Hb Hn). split; reflexivity.
  - intros src s Hs. eexists.
    rewrite (move_assign_eq T this src b s w Hb Hs).
    split; [reflexivity|]. cbn [calls].
    rewrite release_calls_null, app_nil_r by exact Hn. reflexivity.
  - intros other o Ho. eexists.
    rewrite (swap_eq this other b o w Hb Ho). split; reflexivity.
Qed.

(** C5: move-constructing [this] from a Holding [other] gives [this]
    the three fields of [other] as they were and leaves [other] Empty;
    [size()] of the new buffer is the old size and of the source is
    [0]; no resource is called, and none is called when the source is
    destroyed afterwards. *)
Theorem move_ctor_takes_triple this other b w :
  Holding b -> objects w !! other = Some b -> objects w !! this = None ->
  exists w',
    move_ctor this other w = Returns tt w'
    /\ objects w' !! this = Some b
    /\ (exists b', objects w' !! other = Some b' /\ Empty b')
    /\ size this w' = Returns (__count_ b) w'
    /\ size other w' = Returns 0 w'
    /\ calls w' = calls w /\ heap w' = heap w
    /\ exists w'',
         dtor T other w' = Returns tt w''
         /\ calls w'' = calls w' /\ heap w'' = heap w'.
Proof.
  intros Hh Ho Hf. assert (this <> other) as Hne by congruence.
  eexists. rewrite (move_ctor_eq this other b w Hf Ho).
  split; [reflexivity|]. cbn [objects calls heap].
  assert ((<[other := Buffer (__mr_ b) 0 nullptr]>
             (<[this := b]> (objects w))) !! other
          = Some (Buffer (__mr_ b) 0 nullptr)) as Hl
    by apply lookup_insert_eq.
  split; [rewrite lookup_insert_ne by congruence; apply lookup_insert_eq|].
  split; [eexists; split; [exact Hl | split; reflexivity]|].
  split.
  { erewrite size_eq; [reflexivity|]. cbn [objects].
    rewrite lookup_insert_ne by congruence. apply lookup_insert_eq. }
  split; [erewrite size_eq by exact Hl; reflexivity|].
  split; [reflexivity|]. split; [reflexivity|].
  eexists. erewrite dtor_of_null by (exact Hl || reflexivity).
  repeat split.
Qed.

(** C7: [x.swap(y)] leaves in [x] the three fields [y] had and in [y]
    those [x] had, for any two buffers, the same one twice included;
    every other buffer, the resources and the call log are as before,
    so neither [allocate] nor [deallocate] was called. *)
Theorem swap_exchanges_triples this other x y w :
  objects w !! this = Some x -> objects w !! other = Some y ->
  exists w',
    swap this other w = Returns tt w'
    /\ objects w' !! this = Some y
    /\ objects w' !! other = Some x
    /\ (forall k, k <> this -> k <> other -> objects w' !! k = objects w !! k)
    /\ size this w' = Returns (__count_ y) w'
    /\ size other w' = Returns (__count_ x) w'
    /\ calls w' = calls w /\ heap w' = heap w.
Proof.
  intros Hx Hy. eexists. rewrite (swap_eq this other x y w Hx Hy).
  split; [reflexivity|]. cbn [objects calls heap].
  assert ((<[other := x]> (<[this := y]> (objects w))) !! this = Some y) as Hl1.
  { rewrite lookup_insert. case_decide as Heq; [|apply lookup_insert_eq].
    subst other. congruence. }
  assert ((<[other := x]> (<[this := y]> (objects w))) !! other = Some x)
    as Hl2 by apply lookup_insert_eq.
  split; [exact Hl1|]. split; [exact Hl2|].
  split; [intros k Hk1 Hk2; rewrite !lookup_insert_ne by congruence; reflexivity|].
  split; [erewrite size_eq by exact Hl1; reflexivity|].
  split; [erewrite size_eq by exact Hl2; reflexivity|].
  split; reflexivity.
Qed.

(** C9: [b = std::move(b)] calls [deallocate] once, with [b]'s resource,
    pointer and allocation size, when [b] is Holding, and not at all
    when [b] is Empty; it never calls [allocate]; [b] is left with
    [count = 0] and [raw = null], and destroying it afterwards calls
    nothing more. *)
Theorem self_move_assign_releases_once this b w :
  objects w !! this = Some b ->
  exists w' evs,
    move_assign T this this w = Returns tt w'
    /\ calls w' = calls w ++ evs
    /\ (count_deallocate evs <= 1)%nat /\ count_allocate evs = 0%nat
    /\ (Holding b ->
        evs = [Deallocate (__mr_ b) (__buf_ b)
                 (__get_allocation_size T (__count_ b))])
    /\ (Empty b -> evs = [])
    /\ (exists b', objects w' !! this = Some b' /\ Empty b')
    /\ size this w' = Returns 0 w'
    /\ exists w'',
         dtor T this w' = Returns tt w'' /\ calls w'' = calls w'.
Proof.
  intros Hb. exists (World (<[this := Buffer (__mr_ b) 0 nullptr]>
                              (<[this := b]> (objects w)))
                           (release_heap T b (heap w))
                           (calls w ++ release_calls T b)).
  exists (release_calls T b).
  rewrite (move_assign_eq T this this b b w Hb Hb).
  split; [reflexivity|]. cbn [objects calls heap].
  split; [reflexivity|].
  assert ((<[this := Buffer (__mr_ b) 0 nullptr]>
             (<[this := b]> (objects w))) !! this
          = Some (Buffer (__mr_ b) 0 nullptr)) as Hl
    by apply lookup_insert_eq.
  split; [|split].
  { unfold release_calls. destruct (__buf_ b =? nullptr); cbn; lia. }
  { unfold release_calls. destruct (__buf_ b =? nullptr); reflexivity. }
  split; [intros [_ Hn]; apply release_calls_nonnull; exact Hn|].
  split; [intros [_ Hn]; apply release_calls_null; exact Hn|].
  split; [eexists; split; [exact Hl | split; reflexivity]|].
  split; [erewrite size_eq by exact Hl; reflexivity|].
  eexists. erewrite dtor_of_null by (exact Hl || reflexivity).
  split; reflexivity.
Qed.

(** C10: after move construction from [other], and after move
    assignment from [other], the [resource] field of [other] is what it
    was, its [count] is [0] and its [raw] is null: an Empty buffer with
    its resource reference, which can be destroyed, assigned to and
    swapped without a call to a resource. *)
Theorem moved_from_keeps_resource this other o w :
  objects w !! other = Some o ->
  (objects w !! this = None ->
   exists w',
     move_ctor this other w = Returns tt w'
     /\ objects w' !! other = Some (Buffer (__mr_ o) 0 nullptr)
     /\ resource other w' = Returns (__mr_ o) w'
     /\ safe_to_reuse T other w')
  /\ (forall b, objects w !! this = Some b ->
      exists w',
        move_assign T this other w = Returns tt w'
        /\ objects w' !! other = Some (Buffer (__mr_ o) 0 nullptr)
        /\ resource other w' = Returns (__mr_ o) w'
        /\ safe_to_reuse T other w').
Proof.
  intros Ho. split.
  - intros Hf. eexists. rewrite (move_ctor_eq this other o w Hf Ho).
    split; [reflexivity|].
    assert (objects (World (<[other := Buffer (__mr_ o) 0 nullptr]>
                             (<[this := o]> (objects w)))
                           (heap w) (calls w)) !! other
            = Some (Buffer (__mr_ o) 0 nullptr)) as Hl
      by apply lookup_insert_eq.
    split; [exact Hl|].
    split; [erewrite resource_eq by exact Hl; reflexivity|].
    exact (null_safe_to_reuse other _ _ Hl eq_refl).
  - intros b Hb. eexists. rewrite (move_assign_eq T this other b o w Hb Ho).
    split; [reflexivity|].
    assert (objects (World (<[other := Buffer (__mr_ o) 0 nullptr]>
                             (<[this := o]> (objects w)))
                           (release_heap T b (heap w))
                           (calls w ++ release_calls T b)) !! other
            = Some (Buffer (__mr_ o) 0 nullptr)) as Hl
      by apply lookup_insert_eq.
    split; [exact Hl|].
    split; [erewrite resource_eq by exact Hl; reflexivity|].
    exact (null_safe_to_reuse other _ _ Hl eq_refl).
Qed.

End Transfer.

Section MoveAssign.

Context {H : Type} `{MemoryResource H}.
Variable T : elem_type.
Implicit Types (w : world H) (x y : uninitialized_buffer).

(** C6: for two distinct Holding buffers, [b = std::move(a)] calls
    [deallocate] once, on [b]'s old resource with [b]'s old pointer and
    the allocation size of [b]'s old count, and nothing else; then [b]
    has the three fields [a] had and [a] is Empty. Over the scenario
    that constructs both, move-assigns and destroys both, the calls are
    two [allocate] and two [deallocate]. *)
Theorem move_assign_releases_then_adopts :
  (forall a b x y w,
     a <> b -> objects w !! a = Some x -> objects w !! b = Some y ->
     Holding x -> Holding y ->
     exists w',
       move_assign T b a w = Returns tt w'
       /\ calls w' = calls w
            ++ [Deallocate (__mr_ y) (__buf_ y)
                  (__get_allocation_size T (__count_ y))]
       /\ objects w' !! b = Some x
       /\ (exists x', objects w' !! a = Some x' /\ Empty x'))
  /\ (forall a b ra ca rb cb pa pb h1 h2 w,
        a <> b -> objects w !! a = None -> objects w !! b = None ->
        0 < ca -> 0 < cb ->
        mr_allocate ra (__get_allocation_size T ca) (heap w) = (Some pa, h1) ->
        mr_allocate rb (__get_allocation_size T cb) h1 = (Some pb, h2) ->
        pa <> nullptr -> pb <> nullptr ->
        exists w' evs,
          move_assign_scenario T a b ra ca rb cb w = Returns tt w'
          /\ calls w' = calls w ++ evs
          /\ evs = [Allocate ra (__get_allocation_size T ca);
                    Allocate rb (__get_allocation_size T cb);
                    Deallocate rb pb (__get_allocation_size T cb);
                    Deallocate ra pa (__get_allocation_size T ca)]
          /\ count_deallocate evs = count_allocate evs
          /\ objects w' = objects w).
Proof.
  split.
  - intros a b x y w Hne Hx Hy Hhx [_ Hny]. eexists.
    rewrite (move_assign_eq T b a y x w Hy Hx).
    split; [reflexivity|]. cbn [objects calls].
    split; [rewrite release_calls_nonnull by exact Hny; reflexivity|].
    split; [rewrite lookup_insert_ne by congruence; apply lookup_insert_eq|].
    eexists. split; [apply lookup_insert_eq | split; reflexivity].
  - intros a b ra ca rb cb pa pb h1 h2 w Hne Hfa Hfb Hca Hcb Ha Hb Hpa Hpb.
    eexists. eexists. unfold move_assign_scenario.
    erewrite bind_returns
      by (apply ctor_allocated; [lia | exact Hfa | exact Ha]).
    erewrite bind_returns
      by (apply ctor_allocated;
          [lia | cbn [objects]; rewrite lookup_insert_ne by congruence;
                 exact Hfb | exact Hb]).
    erewrite bind_returns.
    2:{ apply (move_assign_eq T b a (Buffer rb cb pb) (Buffer ra ca pa));
        cbn [objects].
        - apply lookup_insert_eq.
        - rewrite lookup_insert_ne by congruence. apply lookup_insert_eq. }
    erewrite bind_returns.
    2:{ apply (dtor_eq T b (Buffer ra ca pa)). cbn [objects].
        rewrite lookup_insert_ne by congruence. apply lookup_insert_eq. }
    erewrite (dtor_eq T a (Buffer ra 0 nullptr)).
    2:{ cbn [objects]. rewrite lookup_delete_ne by congruence.
        apply lookup_insert_eq. }
    cbn [objects heap calls __mr_ __count_ __buf_].
    rewrite (release_calls_nonnull T (Buffer rb cb pb)) by exact Hpb.
    rewrite (release_calls_nonnull T (Buffer ra ca pa)) by exact Hpa.
    rewrite (release_calls_null T (Buffer ra 0 nullptr)) by reflexivity.
    cbn [__mr_ __count_ __buf_].
    split; [reflexivity|].
    split; [rewrite app_nil_r, <- !app_assoc; cbn [app]; reflexivity|].
    split; [reflexivity|]. split; [reflexivity|].
    apply map_eq. intros k. cbn [objects].
    rewrite !lookup_delete, !lookup_insert.
    repeat case_decide; subst; congruence.
Qed.

End MoveAssign.

(** ** The properties on the bump resource *)

Example two_buffers_constructed :
  (ctor int32_t 0%nat 0%nat 3;; ctor int32_t 1%nat 0%nat 7) bump_world
  = Returns tt two_buffers.
Proof. reflexivity. Qed.

Example two_buffers_reachable : reachable int32_t two_buffers.
Proof.
  exists bump_world. split; [reflexivity|].
  eapply rtc_l.
  { exists (Construct 0%nat 0%nat 3). split; [split; [lia | reflexivity]|].
    left. reflexivity. }
  eapply rtc_l; [|apply rtc_refl].
  exists (Construct 1%nat 0%nat 7). split; [split; [lia | reflexivity]|].
  left. reflexivity.
Qed.

Lemma ctor_allocates_iff_count_positive_witness :
  exists w',
    (ctor int32_t 0%nat 0%nat 10 bump_world = Returns tt w'
     \/ ctor int32_t 0%nat 0%nat 10 bump_world = Throws w')
    /\ (10 = 0 ->
        ctor int32_t 0%nat 0%nat 10 bump_world = Returns tt w'
        /\ calls w' = calls bump_world
        /\ size 0%nat w' = Returns 0 w')
    /\ (0 < 10 ->
        calls w' = calls bump_world
                   ++ [Allocate 0%nat (__get_allocation_size int32_t 10)]
        /\ (ctor int32_t 0%nat 0%nat 10 bump_world = Returns tt w' ->
            size 0%nat w' = Returns 10 w'))
    /\ (count_allocate (calls w') = S (count_allocate (calls bump_world))
        <-> 0 < 10)
    /\ count_deallocate (calls w') = count_deallocate (calls bump_world).
Proof.
  apply (ctor_allocates_iff_count_positive int32_t 0%nat 0%nat 10 bump_world).
  - split; [lia | reflexivity].
  - reflexivity.
Defined.

Lemma ctor_failure_commits_nothing_witness :
  exists w',
    ctor int32_t 0%nat 0%nat 1000 bump_world = Throws w'
    /\ objects w' = objects bump_world
    /\ calls w' = [Allocate 0%nat 4000]
    /\ count_deallocate (calls w') = 0%nat.
Proof.
  destruct (ctor_failure_commits_nothing int32_t 0%nat 0%nat 1000 bump_world 256)
    as (w' & Hthrow & Hobjs & _ & Hcalls & Hcount & _).
  - split; [lia | reflexivity].
  - discriminate.
  - reflexivity.
  - reflexivity.
  - exists w'. repeat split; assumption.
Defined.

Lemma move_ctor_takes_triple_witness :
  exists w',
    move_ctor 2%nat 0%nat two_buffers = Returns tt w'
    /\ objects w' !! 2%nat = Some three_ints
    /\ (exists b', objects w' !! 0%nat = Some b' /\ Empty b')
    /\ size 2%nat w' = Returns 3 w'
    /\ size 0%nat w' = Returns 0 w'
    /\ calls w' = calls two_buffers /\ heap w' = heap two_buffers
    /\ exists w'',
         dtor int32_t 0%nat w' = Returns tt w''
         /\ calls w'' = calls w' /\ heap w'' = heap w'.
Proof.
  apply (move_ctor_takes_triple int32_t 2%nat 0%nat three_ints two_buffers).
  - split; [reflexivity | discriminate].
  - reflexivity.
  - reflexivity.
Defined.

Lemma move_assign_releases_then_adopts_witness :
  (exists w',
     move_assign int32_t 1%nat 0%nat two_buffers = Returns tt w'
     /\ calls w' = calls two_buffers ++ [Deallocate 0%nat 512 28]
     /\ objects w' !! 1%nat = Some three_ints
     /\ (exists x', objects w' !! 0%nat = Some x' /\ Empty x'))
  /\ (exists w' evs,
        move_assign_scenario int32_t 0%nat 1%nat 0%nat 3 0%nat 7 bump_world
        = Returns tt w'
        /\ calls w' = calls bump_world ++ evs
        /\ evs = [Allocate 0%nat 12; Allocate 0%nat 28;
                  Deallocate 0%nat 512 28; Deallocate 0%nat 256 12]
        /\ count_deallocate evs = count_allocate evs
        /\ objects w' = objects bump_world).
Proof.
  destruct (move_assign_releases_then_adopts (H := Z) int32_t) as [Hone Hall].
  split.
  - apply (Hone 0%nat 1%nat three_ints seven_ints two_buffers).
    + discriminate.
    + reflexivity.
    + reflexivity.
    + split; [reflexivity | discriminate].
    + split; [reflexivity | discriminate].
  - apply (Hall 0%nat 1%nat 0%nat 3 0%nat 7 256 512 512 768 bump_world).
    + discriminate.
    + reflexivity.
    + reflexivity.
    + reflexivity.
    + reflexivity.
    + reflexivity.
    + reflexivity.
    + discriminate.
    + discriminate.
Defined.

Lemma swap_exchanges_triples_witness :
  exists w',
    swap 0%nat 1%nat two_buffers = Returns tt w'
    /\ objects w' !! 0%nat = Some seven_ints
    /\ objects w' !! 1%nat = Some three_ints
    /\ (forall k, k <> 0%nat -> k <> 1%nat ->
                  objects w' !! k = objects two_buffers !! k)
    /\ size 0%nat w' = Returns 7 w'
    /\ size 1%nat w' = Returns 3 w'
    /\ calls w' = calls two_buffers /\ heap w' = heap two_buffers.
Proof.
  apply (swap_exchanges_triples 0%nat 1%nat three_ints seven_ints two_buffers).
  - reflexivity.
  - reflexivity.
Defined.

Lemma self_move_assign_releases_once_witness :
  exists w' evs,
    move_assign int32_t 0%nat 0%nat two_buffers = Returns tt w'
    /\ calls w' = calls two_buffers ++ evs
    /\ (count_deallocate evs <= 1)%nat /\ count_allocate evs = 0%nat
    /\ (Holding three_ints -> evs = [Deallocate 0%nat 256 12])
    /\ (Empty three_ints -> evs = [])
    /\ (exists b', objects w' !! 0%nat = Some b' /\ Empty b')
    /\ size 0%nat w' = Returns 0 w'
    /\ exists w'',
         dtor int32_t 0%nat w' = Returns tt w'' /\ calls w'' = calls w'.
Proof.
  apply (self_move_assign_releases_once int32_t 0%nat three_ints two_buffers).
  reflexivity.
Defined.

Lemma moved_from_keeps_resource_witness :
  (exists w',
     move_ctor 2%nat 0%nat two_buffers = Returns tt w'
     /\ objects w' !! 0%nat = Some (Buffer 0%nat 0 nullptr)
     /\ resource 0%nat w' = Returns 0%nat w'
     /\ safe_to_reuse int32_t 0%nat w')
  /\ (exists w',
        move_assign int32_t 1%nat 0%nat two_buffers = Returns tt w'
        /\ objects w' !! 0%nat = Some (Buffer 0%nat 0 nullptr)
        /\ resource 0%nat w' = Returns 0%nat w'
        /\ safe_to_reuse int32_t 0%nat w').
Proof.
  destruct (moved_from_keeps_resource int32_t 2%nat 0%nat three_ints two_buffers)
    as [Hctor _]; [reflexivity|].
  destruct (moved_from_keeps_resource int32_t 1%nat 0%nat three_ints two_buffers)
    as [_ Hassign]; [reflexivity|].
  split.
  - apply Hctor. reflexivity.
  - apply (Hassign seven_ints). reflexivity.
Defined.

(** ** Every way a member function can end *)

Section Cases.

Context {H : Type} `{MemoryResource H}.
Variable T : elem_type.
Implicit Types (w : world H) (b o : uninitialized_buffer).

Lemma move_ctor_cases this other w :
  (exists o,
     objects w !! this = None /\ objects w !! other = Some o
     /\ move_ctor this other w
        = Returns tt
            (World (<[other := Buffer (__mr_ o) 0 nullptr]>
                      (<[this := o]> (objects w)))
                   (heap w) (calls w)))
  \/ move_ctor this other w = Undefined.
Proof.
  destruct (objects w !! other) as [o|] eqn:Ho.
  - destruct (objects w !! this) as [b|] eqn:Hb.
    + right. unfold_ops. run_prims. reflexivity.
    + left. exists o. split; [reflexivity|]. split; [reflexivity|].
      apply move_ctor_eq; assumption.
  - right. unfold_ops. run_prims. reflexivity.
Qed.

Lemma move_assign_cases this other w :
  (exists b o,
     objects w !! this = Some b /\ objects w !! other = Some o
     /\ move_assign T this other w
        = Returns tt
            (World (<[other := Buffer (__mr_ o) 0 nullptr]>
                      (<[this := o]> (objects w)))
                   (release_heap T b (heap w))
                   (calls w ++ release_calls T b)))
  \/ move_assign T this other w = Undefined.
Proof.
  destruct (objects w !! this) as [b|] eqn:Hb.
  - destruct (objects w !! other) as [o|] eqn:Ho.
    + left. exists b, o. split; [reflexivity|]. split; [reflexivity|].
      apply move_assign_eq; assumption.
    + right. assert (this <> other) as Hne by congruence.
      unfold_ops. destruct (__buf_ b =? nullptr) eqn:E; run_prims; reflexivity.
  - right. unfold_ops. run_prims. reflexivity.
Qed.

Lemma swap_cases this other w :
  (exists b o,
     objects w !! this = Some b /\ objects w !! other = Some o
     /\ swap this other w
        = Returns tt (World (<[other := b]> (<[this := o]> (objects w)))
                            (heap w) (calls w)))
  \/ swap this other w = Undefined.
Proof.
  destruct (objects w !! this) as [b|] eqn:Hb.
  - destruct (objects w !! other) as [o|] eqn:Ho.
    + left. exists b, o. split; [reflexivity|]. split; [reflexivity|].
      apply swap_eq; assumption.
    + right. assert (this <> other) as Hne by congruence.
      unfold_ops. run_prims. reflexivity.
  - right. unfold_ops. run_prims. reflexivity.
Qed.

Lemma dtor_cases this w :
  (exists b,
     objects w !! this = Some b
     /\ dtor T this w
        = Returns tt (World (delete this (objects w))
                            (release_heap T b (heap w))
                            (calls w ++ release_calls T b)))
  \/ dtor T this w = Undefined.
Proof.
  destruct (objects w !! this) as [b|] eqn:Hb.
  - left. exists b. split; [reflexivity|]. apply dtor_eq; assumption.
  - right. unfold_ops. run_prims. reflexivity.
Qed.

Lemma ctor_cases this mr count w :
  (objects w !! this = None /\ count = 0
   /\ ctor T this mr count w
      = Returns tt (World (<[this := Buffer mr 0 nullptr]> (objects w))
                          (heap w) (calls w)))
  \/ (exists p h',
        objects w !! this = None /\ count <> 0
        /\ mr_allocate mr (__get_allocation_size T count) (heap w)
           = (Some p, h')
        /\ ctor T this mr count w
           = Returns tt
               (World (<[this := Buffer mr count p]> (objects w)) h'
                  (calls w ++ [Allocate mr (__get_allocation_size T count)])))
  \/ (exists h',
        count <> 0
        /\ mr_allocate mr (__get_allocation_size T count) (heap w)
           = (None, h')
        /\ ctor T this mr count w
           = Throws
               (World (objects w) h'
                  (calls w ++ [Allocate mr (__get_allocation_size T count)])))
  \/ ctor T this mr count w = Undefined.
Proof.
  destruct (decide (count = 0)) as [->|Hne].
  - destruct (objects w !! this) as [b|] eqn:Hb.
    + right. right. right. unfold_ops. change (0 =? 0) with true.
      run_prims. reflexivity.
    + left. split; [reflexivity|]. split; [reflexivity|].
      apply ctor_zero; assumption.
  - destruct (mr_allocate mr (__get_allocation_size T count) (heap w))
      as [[p|] h'] eqn:Ha.
    + destruct (objects w !! this) as [b|] eqn:Hb.
      * right. right. right. apply Z.eqb_neq in Hne.
        unfold_ops. run_prims. reflexivity.
      * right. left. exists p, h'. repeat split; try assumption.
        apply ctor_allocated; assumption.
    + right. right. left. exists h'. repeat split; try assumption.
      apply ctor_failed; assumption.
Qed.

End Cases.

(** ** Counting the buffers that hold an allocation *)

Lemma holding_count_insert_fresh m k b :
  m !! k = None ->
  holding_count (<[k := b]> m) = (holding_count m + weight b)%nat.
Proof.
  intros Hk. unfold holding_count, weight.
  destruct (owns b) eqn:E.
  - rewrite map_filter_insert_True by exact E.
    rewrite map_size_insert_None; [lia|].
    apply map_lookup_filter_None. left. exact Hk.
  - rewrite map_filter_insert_False by (cbn; congruence).
    rewrite delete_id by exact Hk. lia.
Qed.

Lemma holding_count_delete m k b :
  m !! k = Some b ->
  holding_count m = (holding_count (delete k m) + weight b)%nat.
Proof.
  intros Hk. rewrite <- (insert_delete_id m k b Hk) at 1.
  apply holding_count_insert_fresh. apply lookup_delete_eq.
Qed.

Lemma holding_count_insert m k b old :
  m !! k = Some old ->
  (holding_count (<[k := b]> m) + weight old
   = holding_count m + weight b)%nat.
Proof.
  intros Hk. rewrite <- insert_delete_eq.
  rewrite holding_count_insert_fresh by apply lookup_delete_eq.
  rewrite (holding_count_delete m k old Hk). lia.
Qed.

Lemma weight_moved_from m : weight (Buffer m 0 nullptr) = 0%nat.
Proof. reflexivity. Qed.

Lemma release_calls_weight T b :
  count_deallocate (release_calls T b) = weight b
  /\ count_allocate (release_calls T b) = 0%nat.
Proof.
  unfold release_calls, weight, owns.
  destruct (__buf_ b =? nullptr); split; reflexivity.
Qed.

(** ** What the operations never do *)

Section Accounting.

Context {H : Type} `{MemoryResource H}.
Variable T : elem_type.
Implicit Types (w : world H) (b o : uninitialized_buffer).



Lemma move_ctor_conserves this other w w' :
  move_ctor this other w = Returns tt w' ->
  outstanding w' = outstanding w
  /\ count_allocate (calls w') = count_allocate (calls w).
Proof.
  unfold outstanding.
  destruct (move_ctor_cases this other w) as [(o & Hf & Ho & ->)| ->];
    [|discriminate].
  intros [= <-]. cbn [objects calls]. split; [|reflexivity].
  assert (this <> other) as Hne by congruence.
  pose proof (holding_count_insert_fresh (objects w) this o Hf) as H1.
  pose proof (holding_count_insert (<[this := o]> (objects w)) other
                (Buffer (__mr_ o) 0 nullptr) o) as H2.
  rewrite lookup_insert_ne in H2 by congruence. specialize (H2 Ho).
  rewrite weight_moved_from in H2. lia.
Qed.

Lemma move_assign_conserves this other w w' :
  move_assign T this other w = Returns tt w' ->
  outstanding w' = outstanding w
  /\ count_allocate (calls w') = count_allocate (calls w).
Proof.
  unfold outstanding.
  destruct (move_assign_cases T this other w)
    as [(b & o & Hb & Ho & ->)| ->]; [|discriminate].
  intros [= <-]. cbn [objects calls].
  rewrite count_deallocate_app, count_allocate_app.
  destruct (release_calls_weight T b) as [-> ->].
  split; [|lia].
  pose proof (holding_count_insert (objects w) this o b Hb) as H1.
  pose proof (holding_count_insert (<[this := o]> (objects w)) other
                (Buffer (__mr_ o) 0 nullptr) o) as H2.
  rewrite weight_moved_from in H2.
  destruct (decide (this = other)) as [->|Hne].
  - rewrite lookup_insert_eq in H2. specialize (H2 eq_refl). lia.
  - rewrite lookup_insert_ne in H2 by congruence. specialize (H2 Ho). lia.
Qed.

Lemma swap_conserves this other w w' :
  swap this other w = Returns tt w' ->
  outstanding w' = outstanding w
  /\ count_allocate (calls w') = count_allocate (calls w).
Proof.
  unfold outstanding.
  destruct (swap_cases this other w) as [(b & o & Hb & Ho & ->)| ->];
    [|discriminate].
  intros [= <-]. cbn [objects calls]. split; [|reflexivity].
  pose proof (holding_count_insert (objects w) this o b Hb) as H1.
  pose proof (holding_count_insert (<[this := o]> (objects w)) other b o)
    as H2.
  destruct (decide (this = other)) as [->|Hne].
  - rewrite lookup_insert_eq in H2. specialize (H2 eq_refl). lia.
  - rewrite lookup_insert_ne in H2 by congruence. specialize (H2 Ho). lia.
Qed.

Lemma dtor_conserves this w w' :
  dtor T this w = Returns tt w' ->
  outstanding w' = outstanding w
  /\ count_allocate (calls w') = count_allocate (calls w).
Proof.
  unfold outstanding.
  destruct (dtor_cases T this w) as [(b & Hb & ->)| ->]; [|discriminate].
  intros [= <-]. cbn [objects calls].
  rewrite count_deallocate_app, count_allocate_app.
  destruct (release_calls_weight T b) as [-> ->].
  pose proof (holding_count_delete (objects w) this b Hb). lia.
Qed.

(** X10: a [noexcept] operation that returns has called [allocate] not at
    all, and [deallocate] once for every buffer that stopped holding an
    allocation: held plus released allocations stay the same number. *)
Theorem noexcept_operations_conserve_allocations (o : operation) w w' :
  is_noexcept o = true -> exec T o w = Returns tt w' ->
  outstanding w' = outstanding w
  /\ count_allocate (calls w') = count_allocate (calls w).
Proof.
  intros Hn.
  destruct o as [this mr c|this other|this other|this other|this];
    cbn [exec]; [discriminate| | | |].
  - apply move_ctor_conserves.
  - apply move_assign_conserves.
  - apply swap_conserves.
  - apply dtor_conserves.
Qed.




(** *** Single ownership *)

Ltac owner_cases Huo :=
  unfold unique_owner in *; cbn [objects];
  intros i j bi bj Hij Hi Hj Hnn;
  repeat match goal with
    | Hl : <[_ := _]> _ !! _ = Some _ |- _ =>
        rewrite lookup_insert in Hl; case_decide; simplify_eq
    | Hl : delete _ _ !! _ = Some _ |- _ =>
        rewrite lookup_delete in Hl; case_decide; simplify_eq
    end;
  cbn [__buf_] in *;
  try congruence;
  try (eapply Huo; [ | eassumption | eassumption | eassumption ]; congruence).

(** X12: if no allocation is held by two live buffers before a [noexcept]
    operation, none is afterwards: what a move hands over, the source
    gives up. *)
Theorem noexcept_operations_keep_unique_owner (o : operation) w w' :
  is_noexcept o = true -> unique_owner (objects w) ->
  exec T o w = Returns tt w' -> unique_owner (objects w').
Proof.
  intros Hn Huo.
  destruct o as [this mr c|this other|this other|this other|this];
    cbn [exec]; [discriminate| | | |].
  - destruct (move_ctor_cases this other w) as [(o & Hf & Ho & ->)| ->];
      [|discriminate].
    intros [= <-]. owner_cases Huo.
  - destruct (move_assign_cases T this other w)
      as [(b & o & Hb & Ho & ->)| ->]; [|discriminate].
    intros [= <-]. owner_cases Huo.
  - destruct (swap_cases this other w) as [(b & o & Hb & Ho & ->)| ->];
      [|discriminate].
    intros [= <-]. owner_cases Huo.
  - destruct (dtor_cases T this w) as [(b & Hb & ->)| ->]; [|discriminate].
    intros [= <-]. owner_cases Huo.
Qed.

(** X13: construction keeps single ownership when the resource hands out a
    pointer that no live buffer holds. *)
Theorem ctor_keeps_unique_owner this mr count w w' :
  unique_owner (objects w) ->
  (forall p h' k b,
     mr_allocate mr (__get_allocation_size T count) (heap w) = (Some p, h') ->
     objects w !! k = Some b -> __buf_ b <> p) ->
  ctor T this mr count w = Returns tt w' ->
  unique_owner (objects w').
Proof.
  intros Huo Hfresh.
  destruct (ctor_cases T this mr count w)
    as [(Hf & -> & Hr)|[(p & h' & Hf & Hc & Ha & Hr)
       |[(h' & Hc & Ha & Hr)|Hr]]];
    rewrite Hr; intros Hex; try discriminate; injection Hex as <-.
  - owner_cases Huo.
  - pose proof (fun k b => Hfresh p h' k b Ha) as Hp.
    owner_cases Huo.
    + eapply Hp; eassumption.
    + intros Heq. symmetry in Heq. revert Heq. eapply Hp. eassumption.
Qed.

End Accounting.

(** ** How the operations compose *)

Ltac same_objects :=
  apply map_eq; intros ?;
  repeat first
    [ rewrite lookup_insert; case_decide
    | rewrite lookup_delete; case_decide ];
  subst; try congruence; try reflexivity.

Lemma world_eta {H : Type} (w : world H) :
  World (objects w) (heap w) (calls w) = w.
Proof. destruct w. reflexivity. Qed.

Section Composition.

Context {H : Type} `{MemoryResource H}.
Variable T : elem_type.
Implicit Types (w : world H) (x y : uninitialized_buffer).

(** X1: a buffer of [count > 0] elements that is constructed and destroyed
    gives its allocation back to the resource it came from, with the
    pointer [allocate] returned and the byte size [allocate] was asked
    for; the object store is as before. *)
Theorem construct_destroy_pairs_calls this mr count w p h' :
  count <> 0 -> objects w !! this = None ->
  mr_allocate mr (__get_allocation_size T count) (heap w) = (Some p, h') ->
  p <> nullptr ->
  construct_destroy T this mr count w
  = Returns tt
      (World (objects w)
         (mr_deallocate mr p (__get_allocation_size T count) h')
         (calls w ++ [Allocate mr (__get_allocation_size T count);
                      Deallocate mr p (__get_allocation_size T count)])).
Proof.
  intros Hc Hf Ha Hp. unfold construct_destroy.
  erewrite bind_returns by (apply ctor_allocated; eassumption).
  erewrite (dtor_eq T this (Buffer mr count p))
    by (cbn [objects]; apply lookup_insert_eq).
  cbn [objects heap calls].
  rewrite release_calls_nonnull by exact Hp.
  unfold release_heap. cbn [__mr_ __count_ __buf_].
  apply Z.eqb_neq in Hp. rewrite Hp.
  rewrite <- app_assoc. cbn [app].
  f_equal. f_equal. rewrite delete_insert_eq. apply delete_id. exact Hf.
Qed.

(** X2: a buffer of no elements that is constructed and destroyed leaves the
    world exactly as it was: no call to the resource at all. *)
Theorem construct_destroy_empty_is_silent this mr w :
  objects w !! this = None ->
  construct_destroy T this mr 0 w = Returns tt w.
Proof.
  intros Hf. unfold construct_destroy.
  erewrite bind_returns by (apply ctor_zero; exact Hf).
  erewrite (dtor_of_null T this (Buffer mr 0 nullptr))
    by (first [cbn [objects]; apply lookup_insert_eq | reflexivity]).
  cbn [objects heap calls].
  rewrite delete_insert_eq, delete_id by exact Hf.
  rewrite world_eta. reflexivity.
Qed.

(** X3: construct [a], move-construct [b] from it, destroy [a], destroy [b]:
    the allocation is released once, by the destruction of [b]; up to and
    including the destruction of [a] the only call is the [allocate]. *)
Theorem move_construct_then_destroy_releases_once (a b : obj) mr count w p h' :
  a <> b -> objects w !! a = None -> objects w !! b = None ->
  count <> 0 ->
  mr_allocate mr (__get_allocation_size T count) (heap w) = (Some p, h') ->
  p <> nullptr ->
  (exists w2,
     (ctor T a mr count;; move_ctor b a;; dtor T a) w = Returns tt w2
     /\ calls w2 = calls w ++ [Allocate mr (__get_allocation_size T count)]
     /\ objects w2 !! b = Some (Buffer mr count p))
  /\ move_construct_scenario T a b mr count w
     = Returns tt
         (World (objects w)
            (mr_deallocate mr p (__get_allocation_size T count) h')
            (calls w ++ [Allocate mr (__get_allocation_size T count);
                         Deallocate mr p (__get_allocation_size T count)])).
Proof.
  intros Hne Hfa Hfb Hc Ha Hp.
  assert (move_ctor b a
            (World (<[a := Buffer mr count p]> (objects w)) h'
               (calls w ++ [Allocate mr (__get_allocation_size T count)]))
          = Returns tt
              (World (<[a := Buffer mr 0 nullptr]>
                        (<[b := Buffer mr count p]>
                           (<[a := Buffer mr count p]> (objects w))))
                     h'
                     (calls w ++ [Allocate mr (__get_allocation_size T count)])))
    as Hmove.
  { apply (move_ctor_eq b a (Buffer mr count p)); cbn [objects].
    - rewrite lookup_insert_ne by congruence. exact Hfb.
    - apply lookup_insert_eq. }
  split.
  - eexists. split.
    + erewrite bind_returns by (apply ctor_allocated; eassumption).
      erewrite bind_returns by exact Hmove.
      apply (dtor_of_null T a (Buffer mr 0 nullptr));
        [cbn [objects]; apply lookup_insert_eq | reflexivity].
    + cbn [calls objects]. split; [reflexivity|].
      rewrite lookup_delete_ne, lookup_insert_ne by congruence.
      apply lookup_insert_eq.
  - unfold move_construct_scenario.
    erewrite bind_returns by (apply ctor_allocated; eassumption).
    erewrite bind_returns by exact Hmove.
    erewrite bind_returns.
    2:{ apply (dtor_of_null T a (Buffer mr 0 nullptr));
          [cbn [objects]; apply lookup_insert_eq | reflexivity]. }
    erewrite (dtor_eq T b (Buffer mr count p)).
    2:{ cbn [objects].
        rewrite lookup_delete_ne, lookup_insert_ne by congruence.
        apply lookup_insert_eq. }
    cbn [objects heap calls].
    rewrite release_calls_nonnull by exact Hp.
    unfold release_heap. cbn [__mr_ __count_ __buf_].
    apply Z.eqb_neq in Hp. rewrite Hp.
    rewrite <- app_assoc. cbn [app].
    f_equal. f_equal. same_objects.
Qed.

(** X4: swapping twice is the identity on the world. *)
Theorem swap_twice_is_identity this other x y w :
  objects w !! this = Some x -> objects w !! other = Some y ->
  (swap this other;; swap this other) w = Returns tt w.
Proof.
  intros Hx Hy.
  erewrite bind_returns by (apply swap_eq; eassumption).
  assert ((<[other := x]> (<[this := y]> (objects w))) !! this = Some y) as Hl.
  { rewrite lookup_insert. case_decide as Heq; [|apply lookup_insert_eq].
    subst other. congruence. }
  erewrite swap_eq;
    [|cbn [objects]; exact Hl | cbn [objects]; apply lookup_insert_eq].
  cbn [objects heap calls]. rewrite <- (world_eta w) at 4.
  f_equal. f_equal. same_objects.
Qed.

(** X5: [a.swap(b)] and [b.swap(a)] do the same. *)
Theorem swap_is_symmetric this other w :
  swap this other w = swap other this w.
Proof.
  destruct (swap_cases this other w) as [(b & o & Hb & Ho & Hr)|Hu].
  - rewrite Hr, (swap_eq other this o b w Ho Hb).
    f_equal. f_equal.
    destruct (decide (this = other)) as [->|Hne].
    + assert (b = o) by congruence. subst o. reflexivity.
    + apply insert_insert_ne. congruence.
  - destruct (swap_cases other this w) as [(b & o & Hb & Ho & Hr)|Hu'].
    + rewrite (swap_eq this other o b w Ho Hb) in Hu. discriminate.
    + rewrite Hu, Hu'. reflexivity.
Qed.

(** X6: exchanging two buffers through a temporary with one move construction
    and two move assignments ends in the same world as [swap], once the
    temporary is destroyed: no allocation is released on the way. *)
Theorem swap_by_moves_is_swap (tmp a b : obj) x y w :
  objects w !! tmp = None ->
  objects w !! a = Some x -> objects w !! b = Some y ->
  swap_by_moves T tmp a b w = swap a b w.
Proof.
  intros Hf Hx Hy.
  assert (tmp <> a) as Hta by congruence.
  assert (tmp <> b) as Htb by congruence.
  rewrite (swap_eq a b x y w Hx Hy). unfold swap_by_moves.
  erewrite bind_returns by (apply move_ctor_eq; eassumption).
  destruct (decide (a = b)) as [->|Hab].
  - assert (x = y) by congruence. subst y.
    erewrite bind_returns.
    2:{ apply (move_assign_eq T b b (Buffer (__mr_ x) 0 nullptr)
                 (Buffer (__mr_ x) 0 nullptr));
          cbn [objects]; apply lookup_insert_eq. }
    erewrite bind_returns.
    2:{ apply (move_assign_eq T b tmp (Buffer (__mr_ x) 0 nullptr) x);
          cbn [objects].
        - apply lookup_insert_eq.
        - rewrite !lookup_insert_ne by congruence. apply lookup_insert_eq. }
    erewrite (dtor_of_null T tmp (Buffer (__mr_ x) 0 nullptr));
      [|cbn [objects]; apply lookup_insert_eq | reflexivity].
    cbn [objects heap calls __mr_ __count_ __buf_].
    rewrite !release_heap_null, !release_calls_null, !app_nil_r
      by reflexivity.
    f_equal. f_equal. same_objects.
  - erewrite bind_returns.
    2:{ apply (move_assign_eq T a b (Buffer (__mr_ x) 0 nullptr) y);
          cbn [objects].
        - apply lookup_insert_eq.
        - rewrite !lookup_insert_ne by congruence. exact Hy. }
    erewrite bind_returns.
    2:{ apply (move_assign_eq T b tmp (Buffer (__mr_ y) 0 nullptr) x);
          cbn [objects].
        - apply lookup_insert_eq.
        - rewrite !lookup_insert_ne by congruence. apply lookup_insert_eq. }
    erewrite (dtor_of_null T tmp (Buffer (__mr_ x) 0 nullptr));
      [|cbn [objects]; apply lookup_insert_eq | reflexivity].
    cbn [objects heap calls __mr_ __count_ __buf_].
    rewrite !release_heap_null, !release_calls_null, !app_nil_r
      by reflexivity.
    f_equal. f_equal. same_objects.
Qed.

(** X7: moving a buffer out into a temporary and back leaves it with the
    three fields it had and calls no resource; the temporary is left
    Empty with the buffer's resource. *)
Theorem move_out_and_back_restores tmp a x w :
  objects w !! tmp = None -> objects w !! a = Some x ->
  move_out_and_back T tmp a w
  = Returns tt
      (World (<[tmp := Buffer (__mr_ x) 0 nullptr]> (objects w))
             (heap w) (calls w)).
Proof.
  intros Hf Hx. assert (tmp <> a) as Hta by congruence.
  unfold move_out_and_back.
  erewrite bind_returns by (apply move_ctor_eq; eassumption).
  erewrite (move_assign_eq T a tmp (Buffer (__mr_ x) 0 nullptr) x).
  2:{ cbn [objects]. apply lookup_insert_eq. }
  2:{ cbn [objects]. rewrite lookup_insert_ne by congruence.
      apply lookup_insert_eq. }
  cbn [objects heap calls __mr_ __count_ __buf_].
  rewrite release_heap_null, release_calls_null, app_nil_r by reflexivity.
  f_equal. f_equal. same_objects.
Qed.


End Composition.

(** ** The typed view *)

Lemma aligned_sum_no_overflow T count :
  wf_elem_type T -> 0 <= count -> count * sizeOf T < SizeT.modulus ->
  (count * sizeOf T) mod alignOf T = 0
  /\ count * sizeOf T + (alignOf T - 1) < SizeT.modulus.
Proof.
  intros [Hp Hr Hs Hsr Hdiv] Hc Hno.
  pose proof (pow2_log2_range _ Hp Hr) as Hk.
  pose proof Hp as [Hpos Hpow].
  assert ((count * sizeOf T) mod alignOf T = 0) as Hm.
  { rewrite <- Z.mul_mod_idemp_r, Hdiv, Z.mul_0_r by lia.
    apply Z.mod_0_l. lia. }
  split; [exact Hm|].
  assert (SizeT.modulus mod alignOf T = 0) as Hmm.
  { rewrite Hpow. unfold SizeT.modulus.
    replace SizeT.bits
      with (SizeT.bits - Z.log2 (alignOf T) + Z.log2 (alignOf T)) at 1 by lia.
    rewrite Z.pow_add_r by lia. apply Z.mod_mul. lia. }
  apply Z.mod_divide in Hm, Hmm; try lia.
  destruct Hm as [q Hq], Hmm as [r Hr'].
  assert (q < r) as Hqr by nia.
  assert ((q + 1) * alignOf T <= r * alignOf T) as Hle
    by (apply Z.mul_le_mono_nonneg_r; lia).
  lia.
Qed.

Lemma allocation_size_no_slack T count :
  wf_elem_type T -> 0 <= count -> count * sizeOf T < SizeT.modulus ->
  __get_allocation_size T count = count * sizeOf T.
Proof.
  intros Hwf Hc Hno.
  destruct (aligned_sum_no_overflow T count Hwf Hc Hno) as [Hm Hhi].
  destruct Hwf as [Hp Hr Hs Hsr Hdiv]. pose proof Hp as [Hpos _].
  assert (0 <= count * sizeOf T) as Hlo by nia.
  rewrite (allocation_size_round_up T count Hp Hr Hlo Hhi).
  apply Z.mod_divide in Hm; [|lia]. destruct Hm as [q Hq]. rewrite Hq.
  replace (q * alignOf T + (alignOf T - 1))
    with ((alignOf T - 1) + q * alignOf T) by lia.
  rewrite Z.div_add by lia.
  rewrite Z.div_small by lia. lia.
Qed.

(** X14: for every C++ element type the allocation size is [count * sizeof]
    itself: rounding up to the alignment never adds a byte, because the
    size of a type is already a multiple of its alignment. *)
Theorem allocation_size_is_exact T count :
  wf_elem_type T -> 0 <= count -> count * sizeOf T < SizeT.modulus ->
  __get_allocation_size T count = count * sizeOf T
  /\ __get_allocation_size T 0 = 0.
Proof.
  intros Hwf Hc Hno. split.
  - apply allocation_size_no_slack; assumption.
  - rewrite (allocation_size_no_slack T 0 Hwf); [reflexivity | lia |].
    rewrite Z.mul_0_l. reflexivity.
Qed.

(** X15: with no slack in the allocation, the resolver has one candidate: the
    typed pointer is the raw pointer when that is aligned for the element
    type, and the null pointer when it is not. *)
Theorem data_is_raw_or_null T m count raw :
  wf_elem_type T -> 0 <= count -> count * sizeOf T < SizeT.modulus ->
  __get_data T (Buffer m count raw)
  = if raw mod alignOf T =? 0 then raw else nullptr.
Proof.
  intros Hwf Hc Hno.
  pose proof (allocation_size_no_slack T count Hwf Hc Hno) as Hspace.
  destruct Hwf as [[Hpos _] _ Hs _ _].
  assert (0 <= count * sizeOf T) as Hlo by nia.
  unfold __get_data. cbn [__count_ __buf_]. rewrite Hspace.
  unfold SizeT.mul. rewrite wrap_small by (unfold SizeT.in_range; lia).
  unfold align.
  pose proof (Z.mod_pos_bound (- raw) (alignOf T) Hpos) as Hb.
  destruct (raw mod alignOf T =? 0) eqn:E.
  - apply Z.eqb_eq in E.
    rewrite Z.mod_opp_l_z by (lia || exact E).
    replace (count * sizeOf T <=? count * sizeOf T) with true
      by (symmetry; apply Z.leb_le; lia).
    replace (raw + 0 - raw <=? count * sizeOf T - count * sizeOf T) with true
      by (symmetry; apply Z.leb_le; lia).
    cbn. f_equal. lia.
  - apply Z.eqb_neq in E.
    assert ((- raw) mod alignOf T <> 0) as Hnz.
    { intros Hz. apply E.
      rewrite <- (Z.opp_involutive raw).
      apply Z.mod_opp_l_z; [lia | exact Hz]. }
    replace (raw + (- raw) mod alignOf T - raw
             <=? count * sizeOf T - count * sizeOf T) with false
      by (symmetry; apply Z.leb_gt; lia).
    rewrite andb_false_r. reflexivity.
Qed.

Lemma get_data_of_fit T b a0 :
  0 < alignOf T -> 0 < sizeOf T -> 0 <= __count_ b -> aligned_fit T b a0 ->
  __get_data T b = __buf_ b + (- __buf_ b) mod alignOf T
  /\ SizeT.mul (__count_ b) (sizeOf T) = __count_ b * sizeOf T
  /\ __get_data T b + __count_ b * sizeOf T
     <= __buf_ b + __get_allocation_size T (__count_ b).
Proof.
  intros Hal Hsz Hcount [[Hl Hu] [Hm Hroom]].
  pose proof (allocation_size_range T (__count_ b)) as Hspace.
  assert (0 <= __count_ b * sizeOf T) as Hlo by nia.
  assert (SizeT.mul (__count_ b) (sizeOf T) = __count_ b * sizeOf T) as Hmul.
  { apply wrap_small. unfold SizeT.in_range in *. lia. }
  pose proof (align_forward_least (alignOf T) (__buf_ b) a0 Hal Hl Hm) as Hle.
  assert (__get_data T b = __buf_ b + (- __buf_ b) mod alignOf T) as Hdata.
  { unfold __get_data. rewrite Hmul.
    rewrite align_fits; [reflexivity | lia | lia | lia]. }
  rewrite Hdata. repeat split; [exact Hmul | lia].
Qed.

Section TypedView.

Context {H : Type} `{MemoryResource H}.
Variable T : elem_type.
Implicit Types (w : world H).

(** X16: on an Empty buffer [begin()], [data()] and [end()] may be called:
    they return the null pointer, for every element type, and [size()]
    returns [0]. *)
Theorem accessors_of_empty_buffer this (b : uninitialized_buffer) w :
  Empty b -> objects w !! this = Some b ->
  begin_ T this w = Returns nullptr w
  /\ data T this w = Returns nullptr w
  /\ end_ T this w = Returns nullptr w
  /\ size this w = Returns 0 w.
Proof.
  intros [Hc Hn] Hb.
  assert (__get_data T b = nullptr) as Hdata.
  { unfold __get_data. rewrite Hc, Hn.
    pose proof (allocation_size_range T 0) as [Hlo _].
    assert ((0 <=? __get_allocation_size T 0) = true) as Hle
      by (apply Z.leb_le; exact Hlo).
    unfold SizeT.mul, SizeT.wrap, align, nullptr. rewrite Z.mul_0_l.
    change (- 0) with 0. rewrite !Zmod_0_l. change (0 + 0 - 0) with 0.
    rewrite Z.sub_0_r, Hle. reflexivity. }
  unfold begin_, data, end_, bind, load, ret. rewrite Hb, Hdata, Hc.
  rewrite (size_eq this b w Hb), Hc.
  repeat split.
Qed.

(** X17: when the resolver finds its aligned address, [count] elements lie
    between [begin()] and [end()], and both are inside the bytes that
    were allocated. *)
Theorem typed_range_inside_allocation this (b : uninitialized_buffer) w :
  0 < alignOf T -> 0 < sizeOf T -> Holding b ->
  (exists a, aligned_fit T b a) ->
  0 <= __buf_ b ->
  __buf_ b + __get_allocation_size T (__count_ b) < SizeT.modulus ->
  objects w !! this = Some b ->
  exists first last,
    begin_ T this w = Returns first w
    /\ end_ T this w = Returns last w
    /\ last - first = __count_ b * sizeOf T
    /\ __buf_ b <= first
    /\ last <= __buf_ b + __get_allocation_size T (__count_ b).
Proof.
  intros Hal Hsz [Hcount _] [a0 Ha0] Hraw Htop Hb.
  destruct (get_data_of_fit T b a0 Hal Hsz ltac:(lia) Ha0)
    as (Hdata & Hmul & Hend).
  pose proof (Z.mod_pos_bound (- __buf_ b) (alignOf T) Hal) as Hbound.
  assert (0 <= __count_ b * sizeOf T) as Hlo by nia.
  exists (__get_data T b), (__get_data T b + __count_ b * sizeOf T).
  unfold begin_, end_, bind, load, ret. rewrite Hb.
  split; [reflexivity|]. split.
  - rewrite Hmul. unfold SizeT.add.
    rewrite wrap_small; [reflexivity|]. unfold SizeT.in_range. lia.
  - split; [lia|]. split; [lia | exact Hend].
Qed.

End TypedView.

(** ** The further properties on the bump resource *)


Lemma two_buffers_unique_owner : unique_owner (objects two_buffers).
Proof.
  intros i j bi bj Hij Hi Hj Hnn. cbn [objects two_buffers] in Hi, Hj.
  rewrite lookup_insert in Hi, Hj.
  repeat case_decide; simplify_eq;
    try (rewrite lookup_singleton in Hi; case_decide; simplify_eq);
    try (rewrite lookup_singleton in Hj; case_decide; simplify_eq);
    try congruence; cbn; discriminate.
Qed.

Lemma construct_destroy_pairs_calls_witness :
  construct_destroy int32_t 0%nat 0%nat 10 bump_world
  = Returns tt
      (World (objects bump_world)
         (mr_deallocate 0%nat 256 (__get_allocation_size int32_t 10) 512)
         (calls bump_world
          ++ [Allocate 0%nat (__get_allocation_size int32_t 10);
              Deallocate 0%nat 256 (__get_allocation_size int32_t 10)])).
Proof.
  apply (construct_destroy_pairs_calls int32_t 0%nat 0%nat 10 bump_world 256 512).
  - discriminate.
  - reflexivity.
  - reflexivity.
  - discriminate.
Defined.

Lemma construct_destroy_empty_is_silent_witness :
  construct_destroy int32_t 0%nat 0%nat 0 bump_world = Returns tt bump_world.
Proof.
  apply (construct_destroy_empty_is_silent int32_t 0%nat 0%nat bump_world).
  reflexivity.
Defined.

Lemma move_construct_then_destroy_releases_once_witness :
  (exists w2,
     (ctor int32_t 0%nat 0%nat 5;; move_ctor 1%nat 0%nat;; dtor int32_t 0%nat)
       bump_world = Returns tt w2
     /\ calls w2 = calls bump_world
                   ++ [Allocate 0%nat (__get_allocation_size int32_t 5)]
     /\ objects w2 !! 1%nat = Some (Buffer 0%nat 5 256))
  /\ move_construct_scenario int32_t 0%nat 1%nat 0%nat 5 bump_world
     = Returns tt
         (World (objects bump_world)
            (mr_deallocate 0%nat 256 (__get_allocation_size int32_t 5) 512)
            (calls bump_world
             ++ [Allocate 0%nat (__get_allocation_size int32_t 5);
                 Deallocate 0%nat 256 (__get_allocation_size int32_t 5)])).
Proof.
  apply (move_construct_then_destroy_releases_once int32_t 0%nat 1%nat 0%nat 5
           bump_world 256 512).
  - discriminate.
  - reflexivity.
  - reflexivity.
  - discriminate.
  - reflexivity.
  - discriminate.
Defined.

Lemma swap_twice_is_identity_witness :
  (swap 0%nat 1%nat;; swap 0%nat 1%nat) two_buffers = Returns tt two_buffers.
Proof.
  apply (swap_twice_is_identity 0%nat 1%nat three_ints seven_ints two_buffers).
  - reflexivity.
  - reflexivity.
Defined.

Lemma swap_by_moves_is_swap_witness :
  swap_by_moves int32_t 2%nat 0%nat 1%nat two_buffers
  = swap 0%nat 1%nat two_buffers.
Proof.
  apply (swap_by_moves_is_swap int32_t 2%nat 0%nat 1%nat three_ints seven_ints
           two_buffers).
  - reflexivity.
  - reflexivity.
  - reflexivity.
Defined.

Lemma move_out_and_back_restores_witness :
  move_out_and_back int32_t 2%nat 0%nat two_buffers
  = Returns tt
      (World (<[2%nat := Buffer 0%nat 0 nullptr]> (objects two_buffers))
             (heap two_buffers) (calls two_buffers)).
Proof.
  apply (move_out_and_back_restores int32_t 2%nat 0%nat three_ints two_buffers).
  - reflexivity.
  - reflexivity.
Defined.



Lemma noexcept_operations_conserve_allocations_witness :
  outstanding
    (World (<[0%nat := Buffer 0%nat 0 nullptr]>
              (<[1%nat := three_ints]> (objects two_buffers)))
           768 (calls two_buffers ++ [Deallocate 0%nat 512 28]))
  = outstanding two_buffers
  /\ count_allocate (calls two_buffers ++ [Deallocate 0%nat 512 28])
     = count_allocate (calls two_buffers).
Proof.
  apply (noexcept_operations_conserve_allocations int32_t
           (MoveAssign 1%nat 0%nat) two_buffers).
  - reflexivity.
  - exact (move_assign_eq int32_t 1%nat 0%nat seven_ints three_ints
             two_buffers eq_refl eq_refl).
Defined.


Lemma noexcept_operations_keep_unique_owner_witness :
  unique_owner
    (<[1%nat := three_ints]> (<[0%nat := seven_ints]> (objects two_buffers))).
Proof.
  exact (noexcept_operations_keep_unique_owner int32_t (Swap 0%nat 1%nat)
           two_buffers
           (World (<[1%nat := three_ints]>
                     (<[0%nat := seven_ints]> (objects two_buffers)))
                  (heap two_buffers) (calls two_buffers))
           eq_refl two_buffers_unique_owner
           (swap_eq 0%nat 1%nat three_ints seven_ints two_buffers
              eq_refl eq_refl)).
Defined.

Lemma ctor_keeps_unique_owner_witness :
  unique_owner (objects two_buffers).
Proof.
  apply (ctor_keeps_unique_owner int32_t 1%nat 0%nat 7
           (World {[ 0%nat := three_ints ]} 512 [Allocate 0%nat 12])
           two_buffers).
  - intros i j bi bj Hij Hi Hj. cbn [objects] in Hi, Hj.
    rewrite lookup_singleton in Hi, Hj. repeat case_decide; congruence.
  - intros p h' k b Ha Hk. cbn in Ha. injection Ha as <- _.
    cbn [objects] in Hk. rewrite lookup_singleton in Hk.
    case_decide; [|discriminate]. injection Hk as <-. discriminate.
  - reflexivity.
Defined.

Lemma allocation_size_is_exact_witness :
  __get_allocation_size int32_t 10 = 10 * sizeOf int32_t
  /\ __get_allocation_size int32_t 0 = 0.
Proof.
  apply (allocation_size_is_exact int32_t 10).
  - exact int32_t_wf.
  - lia.
  - reflexivity.
Defined.

Lemma data_is_raw_or_null_witness :
  __get_data int32_t (Buffer 0%nat 10 258)
  = if 258 mod alignOf int32_t =? 0 then 258 else nullptr.
Proof.
  apply (data_is_raw_or_null int32_t 0%nat 10 258).
  - exact int32_t_wf.
  - lia.
  - reflexivity.
Defined.

Lemma accessors_of_empty_buffer_witness :
  begin_ int32_t 0%nat empty_buffer_world = Returns nullptr empty_buffer_world
  /\ data int32_t 0%nat empty_buffer_world
     = Returns nullptr empty_buffer_world
  /\ end_ int32_t 0%nat empty_buffer_world
     = Returns nullptr empty_buffer_world
  /\ size 0%nat empty_buffer_world = Returns 0 empty_buffer_world.
Proof.
  apply (accessors_of_empty_buffer int32_t 0%nat (Buffer 0%nat 0 nullptr)
           empty_buffer_world).
  - split; reflexivity.
  - reflexivity.
Defined.

Lemma typed_range_inside_allocation_witness :
  exists first last,
    begin_ int32_t 0%nat ten_ints_world = Returns first ten_ints_world
    /\ end_ int32_t 0%nat ten_ints_world = Returns last ten_ints_world
    /\ last - first = __count_ ten_ints * sizeOf int32_t
    /\ __buf_ ten_ints <= first
    /\ last <= __buf_ ten_ints
               + __get_allocation_size int32_t (__count_ ten_ints).
Proof.
  apply (typed_range_inside_allocation int32_t 0%nat ten_ints ten_ints_world).
  - reflexivity.
  - reflexivity.
  - split; [reflexivity | discriminate].
  - exists 256. unfold aligned_fit. vm_compute. intuition discriminate.
  - discriminate.
  - reflexivity.
  - reflexivity.
Defined.
